(** * Terminal-cell style resolver of kui's bash-like plugin

    A shallow embedding of
    [plugins/plugin-bash-like/src/pty/xterm-helpers/index.ts]:
    [colorPalette], [rgbToHex], [getColor] and
    [prepareCellForDomRenderer], followed by the properties the
    specification states about them; and of the synchronous part of the
    Electron/Tauri bridge ([main/tauri-bridge]): runtime detection and
    the listener registry of [TauriIpcRenderer].

    Numbers.  The TypeScript type [number] is read at its integer values
    and modelled by [Z]: the cell accessors of xterm hand out integers,
    and on them a double computes exactly as long as the results stay
    within [MAX_SAFE_INTEGER] = 2^53 - 1, which the values of a terminal
    cell (at most 32 bits) do by a wide margin.  Beyond that bound the
    sum [(color - 232) * 10 + 8] of the grayscale branch is rounded by
    the source and not by the model, so a statement that fixes the
    digits of that branch carries the bound as a hypothesis; comparisons,
    the 32-bit wrap-around and [toString(16)] are exact on every integer.
    The two places where JavaScript leaves plain integer arithmetic are
    written out: the bit operators [>>] and [&] first wrap their operands
    to 32 bit two's complement ([ToInt32]), and [%] truncates towards
    zero ([Z.rem]).

    Strings.  JavaScript strings are [string]; the only characters that
    occur are ASCII.  An array read outside the array gives [undefined],
    so a value that is "a string or undefined" is a [jsval]. *)

From Stdlib Require Import ZArith List String Ascii Bool Lia.
From Stdlib Require Import HexadecimalString HexadecimalPos.
Import ListNotations.

Local Open Scope string_scope.
Local Open Scope Z_scope.

(** ** The fragment of JavaScript the source relies on *)

Module JS.

(** What an expression of static type [string] can hold at run time in
    this file: a string, or [undefined] after an out-of-range array
    read. *)
Inductive jsval : Type :=
| Str (s : string)
| Undefined.

(** [ToBoolean]: the empty string and [undefined] are falsy. *)
Definition truthy (v : jsval) : bool :=
  match v with
  | Str s => negb (s =? "")%string
  | Undefined => false
  end.

(** [ToString], as a template literal applies it. *)
Definition toString (v : jsval) : string :=
  match v with
  | Str s => s
  | Undefined => "undefined"
  end.

(** [Number.MAX_SAFE_INTEGER]: up to here, in absolute value, a double
    holds every integer and adds and multiplies them exactly. *)
Definition MAX_SAFE_INTEGER : Z := 2 ^ 53 - 1.

(** Truthiness of a number (integers only: no NaN). *)
Definition truthyNum (x : Z) : bool := negb (x =? 0).

(** [ToInt32]: wrap around to the signed 32-bit range. *)
Definition ToInt32 (x : Z) : Z := (x + 2 ^ 31) mod 2 ^ 32 - 2 ^ 31.

(** [x >> n]: sign-propagating shift of the wrapped left operand; only
    the low five bits of the count are used. *)
Definition sar (x n : Z) : Z := Z.shiftr (ToInt32 x) (Z.land n 31).

(** [x & y] on wrapped operands. *)
Definition band (x y : Z) : Z := Z.land (ToInt32 x) (ToInt32 y).

(** [Math.floor (x / y)] for integers [x] and [y]. *)
Definition floorDiv (x y : Z) : Z := x / y.

(** [x % y]: the sign follows the dividend. *)
Definition rem (x y : Z) : Z := Z.rem x y.

(** [x.toString(16)] for an integer [x]: lowercase digits, no padding,
    a leading minus sign for negative numbers. *)
Definition toString16 (x : Z) : string :=
  NilZero.string_of_int (Z.to_hex_int x).

(** [a[i]] for an array of strings and an integer index. *)
Definition index (a : list string) (i : Z) : jsval :=
  if i <? 0 then Undefined
  else match nth_error a (Z.to_nat i) with
       | Some s => Str s
       | None => Undefined
       end.

(** [a.push(x)], returning the array after the call. *)
Definition push (a : list string) (x : string) : list string := (a ++ [x])%list.

(** [a.join(sep)] for an array of strings. *)
Definition join (sep : string) (a : list string) : string :=
  String.concat sep a.

End JS.

Import JS.

(** ** Color mode constants from xterm *)

Module ColorMode.
Definition DEFAULT : Z := 0.
Definition PALETTE : Z := 1.
Definition RGB : Z := 2.
End ColorMode.

(** ** ANSI color palette (standard 16 colors) *)

Definition colorPalette : list string :=
  [ "#000000"; "#cd0000"; "#00cd00"; "#cdcd00"; "#0000ee"; "#cd00cd"; "#00cdcd"; "#e5e5e5";
    "#7f7f7f"; "#ff0000"; "#00ff00"; "#ffff00"; "#5c5cff"; "#ff00ff"; "#00ffff"; "#ffffff" ].

(** ** Convert RGB color values to hex format *)

Definition rgbToHex (r g b : Z) : string :=
  "#" ++ join "" (map (fun x =>
                         let hex := toString16 x in
                         if (String.length hex =? 1)%nat then "0" ++ hex else hex)
                      [r; g; b]).

(** ** Get color from xterm color mode *)

Definition getColor (colorMode color : Z) : jsval :=
  if colorMode =? ColorMode.DEFAULT then
    Str ""
  else if colorMode =? ColorMode.PALETTE then
    if color <? 16 then
      index colorPalette color
    else if color <? 232 then
      (* 216 color cube *)
      let c := color - 16 in
      let r := floorDiv c 36 in
      let g := floorDiv (rem c 36) 6 in
      let b := rem c 6 in
      Str (rgbToHex
             (if truthyNum r then r * 40 + 55 else 0)
             (if truthyNum g then g * 40 + 55 else 0)
             (if truthyNum b then b * 40 + 55 else 0))
    else
      (* Grayscale *)
      let gray := (color - 232) * 10 + 8 in
      Str (rgbToHex gray gray gray)
  else if colorMode =? ColorMode.RGB then
    let r := band (sar color 16) 255 in
    let g := band (sar color 8) 255 in
    let b := band color 255 in
    Str (rgbToHex r g b)
  else
    Str "".

(** ** Prepare an xterm IBufferCell for DOM rendering *)

(** The accessors of xterm's [IBufferCell] that the function calls.  The
    cell is only ever used through them. *)
Class IBufferCell (C : Type) : Type := {
  isBold : C -> bool;
  isItalic : C -> bool;
  isDim : C -> bool;
  isUnderline : C -> bool;
  isStrikethrough : C -> bool;
  isBlink : C -> bool;
  isInvisible : C -> bool;
  getFgColorMode : C -> Z;
  getFgColor : C -> Z;
  getBgColorMode : C -> Z;
  getBgColor : C -> Z;
  getChars : C -> string
}.

(** The object the function returns. *)
Record RenderStyle : Type := {
  classList : string;
  style : string;
  textContent : string
}.

Definition prepareCellForDomRenderer {C : Type} `{IBufferCell C} (cell : C)
  : RenderStyle :=
  let classList : list string := [] in
  let styles : list string := [] in
  (* Handle text attributes *)
  let classList := if isBold cell then push classList "xterm-bold" else classList in
  let classList := if isItalic cell then push classList "xterm-italic" else classList in
  let classList := if isDim cell then push classList "xterm-dim" else classList in
  let classList := if isUnderline cell then push classList "xterm-underline" else classList in
  let classList :=
    if isStrikethrough cell then push classList "xterm-strikethrough" else classList in
  let classList := if isBlink cell then push classList "xterm-blink" else classList in
  let classList := if isInvisible cell then push classList "xterm-invisible" else classList in
  (* Handle foreground color *)
  let fgColor := getColor (getFgColorMode cell) (getFgColor cell) in
  let styles :=
    if truthy fgColor then push styles ("color: " ++ toString fgColor) else styles in
  (* Handle background color *)
  let bgColor := getColor (getBgColorMode cell) (getBgColor cell) in
  let styles :=
    if truthy bgColor then push styles ("background-color: " ++ toString bgColor)
    else styles in
  {| classList := join " " classList;
     style := join "; " styles;
     textContent := getChars cell |}.

(** A cell given by the values its accessors return. *)
Record CellData : Type := {
  bold : bool;
  italic : bool;
  dim : bool;
  underline : bool;
  strikethrough : bool;
  blink : bool;
  invisible : bool;
  fgColorMode : Z;
  fgColor : Z;
  bgColorMode : Z;
  bgColor : Z;
  chars : string
}.

#[export] Instance CellData_IBufferCell : IBufferCell CellData := {|
  isBold := bold;
  isItalic := italic;
  isDim := dim;
  isUnderline := underline;
  isStrikethrough := strikethrough;
  isBlink := blink;
  isInvisible := invisible;
  getFgColorMode := fgColorMode;
  getFgColor := fgColor;
  getBgColorMode := bgColorMode;
  getBgColor := bgColor;
  getChars := chars
|}.

(** A cell with no attribute set, both colors default and no text. *)
Definition plainCell : CellData :=
  {| bold := false; italic := false; dim := false; underline := false;
     strikethrough := false; blink := false; invisible := false;
     fgColorMode := ColorMode.DEFAULT; fgColor := 0;
     bgColorMode := ColorMode.DEFAULT; bgColor := 0;
     chars := "" |}.

(** ** The specification's vocabulary

    These definitions follow the words of the specification, not the
    code; the theorems below compare the two. *)

(** The sixteen lowercase hexadecimal digits. *)
Definition hexDigits : list ascii :=
  list_ascii_of_string "0123456789abcdef".

Definition hexDigit (d : Z) : ascii := nth (Z.to_nat d) hexDigits "?"%char.

(** One channel, zero-padded to width 2. *)
Definition hexByte (x : Z) : string :=
  String (hexDigit (x / 16)) (String (hexDigit (x mod 16)) "").

(** "Compose channels into a hex string". *)
Definition hexCompose (r g b : Z) : string :=
  "#" ++ hexByte r ++ hexByte g ++ hexByte b.

(** "Each axis component k maps to channel value 0 if k=0, else k*40+55". *)
Definition cubeChannel (k : Z) : Z := if k =? 0 then 0 else k * 40 + 55.

(** "gray = (value - 232)*10 + 8". *)
Definition grayLevel (value : Z) : Z := (value - 232) * 10 + 8.

Definition isByte (x : Z) : Prop := 0 <= x < 256.

Definition isLowerHexDigit (c : ascii) : bool := existsb (Ascii.eqb c) hexDigits.

(** "Exactly 7 characters: # plus 6 lowercase hex digits". *)
Definition isColorString (s : string) : bool :=
  match s with
  | String "#" digits =>
      (String.length digits =? 6)%nat
      && forallb isLowerHexDigit (list_ascii_of_string digits)
  | _ => false
  end.

(** The seven attribute checks in their fixed order, each with its class
    token. *)
Definition attributeTokens {C : Type} `{IBufferCell C} : list ((C -> bool) * string) :=
  [ (isBold, "xterm-bold");
    (isItalic, "xterm-italic");
    (isDim, "xterm-dim");
    (isUnderline, "xterm-underline");
    (isStrikethrough, "xterm-strikethrough");
    (isBlink, "xterm-blink");
    (isInvisible, "xterm-invisible") ].

(** The tokens of the checks that are true of [cell], in table order. *)
Definition activeTokens {C : Type} `{IBufferCell C} (cell : C) : list string :=
  map snd (filter (fun check => fst check cell) attributeTokens).

(** A style declaration is present exactly when its color is a non-empty
    string. *)
Definition declaration (property : string) (color : jsval) : list string :=
  match color with
  | Str (String a s) => [property ++ ": " ++ String a s]
  | _ => []
  end.

(** What [rgbToHex] writes for one channel: the hexadecimal form, with a
    "0" in front when it is a single character. *)
Definition channelHex (x : Z) : string :=
  let hex := toString16 x in
  if (String.length hex =? 1)%nat then "0" ++ hex else hex.

(** Reading a color string back: the value of a hexadecimal digit is its
    position among the sixteen digits, and the digits after the first
    character are read most significant first. *)
Fixpoint positionOf (c : ascii) (l : list ascii) : Z :=
  match l with
  | [] => 0
  | d :: l' => if Ascii.eqb c d then 0 else 1 + positionOf c l'
  end.

Definition hexDigitValue (c : ascii) : Z := positionOf c hexDigits.

Definition hexValue (digits : string) : Z :=
  fold_left (fun acc c => acc * 16 + hexDigitValue c)
            (list_ascii_of_string digits) 0.

Definition colorValue (s : string) : Z :=
  match s with
  | String _ digits => hexValue digits
  | EmptyString => 0
  end.

(** A style declaration [property: #rrggbb]. *)
Definition isColorDeclaration (property decl : string) : Prop :=
  exists color : string,
    decl = property ++ ": " ++ color /\ isColorString color = true.

(** ** The Electron/Tauri bridge: runtime detection and the listener
    registry of [TauriIpcRenderer]

    The methods [send] and [invoke] hand their work to the Tauri backend
    through promises and are not part of this model; [debug] output is
    not recorded. *)

Module TauriBridge.

(** *** Runtime detection *)

(** What the module looks at when it is loaded: whether [window] exists
    and, if so, whether its properties [__TAURI__] and [electron] are
    [undefined]. *)
Record Window : Type := {
  tauriDefined : bool;     (* window.__TAURI__ !== undefined *)
  electronDefined : bool   (* window.electron !== undefined *)
}.

Definition isTauri (window : option Window) : bool :=
  match window with
  | Some w => tauriDefined w
  | None => false
  end.

Definition isElectron (window : option Window) : bool :=
  match window with
  | Some w => electronDefined w
  | None => false
  end.

(** How [const { ipcRenderer } = require('electron')] ends in the
    environment at hand: looking up [require], calling it and taking the
    result apart may each throw; otherwise [ipcRenderer] is bound to what
    the module holds under that name, which may be [undefined]. *)
Inductive Required (Value Thrown : Type) : Type :=
| Bound (ipcRenderer : Value)
| Failed (thrown : Thrown).
Arguments Bound {Value Thrown} ipcRenderer.
Arguments Failed {Value Thrown} thrown.

(** How a call of [getIpcRenderer] ends. *)
Inductive Completion (Value Thrown : Type) : Type :=
| ReturnsNewTauriIpcRenderer
| ReturnsValue (ipcRenderer : Value)
| ThrowsError (message : string)   (* throw new Error(message) *)
| ThrowsOther (thrown : Thrown).
Arguments ReturnsNewTauriIpcRenderer {Value Thrown}.
Arguments ReturnsValue {Value Thrown} ipcRenderer.
Arguments ThrowsError {Value Thrown} message.
Arguments ThrowsOther {Value Thrown} thrown.

Definition getIpcRenderer {Value Thrown : Type} (window : option Window)
  (required : Required Value Thrown) : Completion Value Thrown :=
  if isTauri window then
    ReturnsNewTauriIpcRenderer
  else if isElectron window then
    match required with
    | Bound ipcRenderer => ReturnsValue ipcRenderer
    | Failed thrown => ThrowsOther thrown
    end
  else
    ThrowsError "Neither Tauri nor Electron runtime detected".

Definition isTauriRuntime (window : option Window) : bool := isTauri window.

Definition isElectronRuntime (window : option Window) : bool := isElectron window.

Definition getRuntimeName (window : option Window) : string :=
  if isTauri window then "Tauri"
  else if isElectron window then "Electron"
  else "Unknown".

(** *** Listeners

    A listener is a function object and is compared by identity.  The
    functions the callers own are numbered; every call of [once] creates
    a new closure, told apart by a serial number, which remembers the
    channel and the listener it wraps. *)
Inductive Listener : Type :=
| Fn (id : nat)
| Wrapped (serial : nat) (channel : string) (listener : Listener).

Fixpoint Listener_eqb (l l' : Listener) : bool :=
  match l, l' with
  | Fn i, Fn j => (i =? j)%nat
  | Wrapped n c k, Wrapped n' c' k' =>
      (n =? n')%nat && (c =? c')%string && Listener_eqb k k'
  | _, _ => false
  end.

(** *** [Set<Function>]

    The entries in insertion order; [delete] leaves an empty slot behind,
    so that a [forEach] under way keeps its position (ECMAScript's
    [[SetData]]). *)
Definition SetData : Type := list (option Listener).

Definition slotHolds (l : Listener) (slot : option Listener) : bool :=
  match slot with
  | Some l' => Listener_eqb l l'
  | None => false
  end.

Definition setHas (s : SetData) (l : Listener) : bool := existsb (slotHolds l) s.

Definition setAdd (s : SetData) (l : Listener) : SetData :=
  if setHas s l then s else (s ++ [Some l])%list.

Definition setDelete (s : SetData) (l : Listener) : SetData :=
  map (fun slot => if slotHolds l slot then None else slot) s.

(** The listeners a [forEach] started now would visit. *)
Definition setValues (s : SetData) : list Listener :=
  flat_map (fun slot => match slot with Some l => [l] | None => [] end) s.

(** *** [Map<string, Set<Function>>], keys in insertion order *)
Definition MapData : Type := list (string * SetData).

Fixpoint mapGet (m : MapData) (key : string) : option SetData :=
  match m with
  | [] => None
  | (k, v) :: m' => if (key =? k)%string then Some v else mapGet m' key
  end.

Definition mapHas (m : MapData) (key : string) : bool :=
  match mapGet m key with
  | Some _ => true
  | None => false
  end.

Fixpoint mapSet (m : MapData) (key : string) (value : SetData) : MapData :=
  match m with
  | [] => [(key, value)]
  | (k, v) :: m' =>
      if (key =? k)%string then (k, value) :: m' else (k, v) :: mapSet m' key value
  end.

(** *** The renderer and what surrounds it

    [world] stands for everything the callers' functions can change
    besides the renderer; [console] collects what [console.error] is
    given. *)
Record State (World Thrown : Type) : Type := {
  listeners : MapData;
  nextSerial : nat;
  world : World;
  console : list Thrown
}.
Arguments listeners {World Thrown} _.
Arguments nextSerial {World Thrown} _.
Arguments world {World Thrown} _.
Arguments console {World Thrown} _.

(** How a function call ends: it returns, or it throws a value. *)
Inductive Outcome (World Thrown : Type) : Type :=
| Returns (st : State World Thrown)
| Throws (error : Thrown) (st : State World Thrown).
Arguments Returns {World Thrown} st.
Arguments Throws {World Thrown} error st.

Section Renderer.

Context {World Thrown Args : Type}.

(** What calling the caller's function number [id] with the arguments of
    an [emit] does. *)
Variable body : nat -> Args -> State World Thrown -> Outcome World Thrown.

Definition withListeners (st : State World Thrown) (m : MapData)
  : State World Thrown :=
  {| listeners := m; nextSerial := nextSerial st;
     world := world st; console := console st |}.

Definition on (channel : string) (listener : Listener) (st : State World Thrown)
  : State World Thrown :=
  let m :=
    if negb (mapHas (listeners st) channel)
    then mapSet (listeners st) channel []
    else listeners st in
  match mapGet m channel with
  | Some channelListeners =>
      withListeners st (mapSet m channel (setAdd channelListeners listener))
  | None => st (* not reached: the key is present by now *)
  end.

Definition once (channel : string) (listener : Listener) (st : State World Thrown)
  : State World Thrown :=
  let wrappedListener := Wrapped (nextSerial st) channel listener in
  on channel wrappedListener
     {| listeners := listeners st; nextSerial := S (nextSerial st);
        world := world st; console := console st |}.

Definition removeListener (channel : string) (listener : Listener)
  (st : State World Thrown) : State World Thrown :=
  match mapGet (listeners st) channel with
  | Some channelListeners =>
      withListeners st
        (mapSet (listeners st) channel (setDelete channelListeners listener))
  | None => st
  end.

(** Calling a listener: the caller's function, or the closure of [once],
    which calls the listener it wraps and then, if that returned, removes
    itself. *)
Fixpoint call (listener : Listener) (args : Args) (st : State World Thrown)
  : Outcome World Thrown :=
  match listener with
  | Fn id => body id args st
  | Wrapped serial channel inner =>
      match call inner args st with
      | Returns st' => Returns (removeListener channel (Wrapped serial channel inner) st')
      | Throws error st' => Throws error st'
      end
  end.

(** The callback [emit] gives to [forEach]: a throw is caught and
    reported. *)
Definition callCaught (listener : Listener) (args : Args) (st : State World Thrown)
  : State World Thrown :=
  match call listener args st with
  | Returns st' => st'
  | Throws error st' =>
      {| listeners := listeners st'; nextSerial := nextSerial st';
         world := world st';
         console := (console st' ++ [error])%list |}
  end.

(** [forEach] from slot [index] on.  The set is read again at every step:
    the map never drops or replaces an entry, so the set [emit] took from
    it is the one found under the channel later, with whatever the
    listeners called so far have added or deleted.  A listener may add
    listeners without end; [fuel] bounds the number of slots visited, and
    [None] means it ran out. *)
Fixpoint forEachFrom (fuel : nat) (channel : string) (args : Args) (index : nat)
  (st : State World Thrown) : option (State World Thrown) :=
  match fuel with
  | O => None
  | S fuel' =>
      match mapGet (listeners st) channel with
      | None => Some st
      | Some channelListeners =>
          match nth_error channelListeners index with
          | None => Some st
          | Some None => forEachFrom fuel' channel args (S index) st
          | Some (Some listener) =>
              forEachFrom fuel' channel args (S index) (callCaught listener args st)
          end
      end
  end.

Definition emit (fuel : nat) (channel : string) (args : Args)
  (st : State World Thrown) : option (State World Thrown) :=
  match mapGet (listeners st) channel with
  | Some _ => forEachFrom fuel channel args 0 st
  | None => Some st
  end.

(** Whether [listener] is at present registered on [channel]. *)
Definition registered (channel : string) (listener : Listener)
  (st : State World Thrown) : bool :=
  match mapGet (listeners st) channel with
  | Some channelListeners => setHas channelListeners listener
  | None => false
  end.

(** The set found under [channel], empty when the channel is unknown. *)
Definition channelSet (channel : string) (st : State World Thrown) : SetData :=
  match mapGet (listeners st) channel with
  | Some channelListeners => channelListeners
  | None => []
  end.

(** A call that leaves the renderer as it found it. *)
Definition keepsRenderer (st : State World Thrown) (o : Outcome World Thrown)
  : Prop :=
  match o with
  | Returns st' | Throws _ st' =>
      listeners st' = listeners st /\ nextSerial st' = nextSerial st
  end.

End Renderer.

(** [entries'] is [entries] with some of its slots emptied: what deleting
    listeners does to a set. *)
Definition shrunk (entries entries' : SetData) : Prop :=
  Forall2 (fun slot slot' => slot' = slot \/ slot' = None) entries entries'.

(** A listener the callers can have registered: one of their functions,
    through [on], or the closure [once] made around one.  ([once] does not
    hand out its closure, so no caller can wrap or register it again.) *)
Definition callerRegistered (l : Listener) : Prop :=
  match l with
  | Fn _ => True
  | Wrapped _ _ (Fn _) => True
  | Wrapped _ _ (Wrapped _ _ _) => False
  end.

(** Callers' functions for the examples: each appends its number and
    argument to the world, and number 13 then throws its argument. *)
Definition recordingBody (id : nat) (arg : string)
  (st : State (list (nat * string)) string) : Outcome (list (nat * string)) string :=
  let st' :=
    {| listeners := listeners st; nextSerial := nextSerial st;
       world := (world st ++ [(id, arg)])%list; console := console st |} in
  if (id =? 13)%nat then Throws arg st' else Returns st'.

(** A renderer as [new TauriIpcRenderer()] creates it. *)
Definition newRenderer {World Thrown : Type} (w : World) : State World Thrown :=
  {| listeners := []; nextSerial := 0; world := w; console := [] |}.

(** A renderer for the examples: its channel "exec" holds an emptied
    slot and one listener. *)
Definition usedRenderer : State (list (nat * string)) string :=
  removeListener "exec" (Fn 5)
    (on "exec" (Fn 2) (on "exec" (Fn 5) (newRenderer []))).

End TauriBridge.

(** ** Auxiliary facts *)

Section Bytes.

(** A boolean check that holds on 0..255 holds of every byte. *)
Lemma byte_forall (f : Z -> bool) :
  forallb f (map Z.of_nat (seq 0 256)) = true ->
  forall x, isByte x -> f x = true.
Proof.
  intros Hall x [Hlo Hhi].
  rewrite forallb_forall in Hall. apply Hall.
  apply in_map_iff. exists (Z.to_nat x). split.
  - apply Z2Nat.id; exact Hlo.
  - apply in_seq. lia.
Qed.

(** On a byte, [toString(16)] with the one-digit padding of [rgbToHex]
    is the two-digit form. *)
Lemma padded_byte (x : Z) :
  isByte x ->
  (let hex := toString16 x in
   if (String.length hex =? 1)%nat then "0" ++ hex else hex) = hexByte x.
Proof.
  intro Hx. apply String.eqb_eq. revert x Hx.
  apply (byte_forall
           (fun x => ((let hex := toString16 x in
                       if (String.length hex =? 1)%nat then "0" ++ hex else hex)
                      =? hexByte x)%string)).
  vm_compute. reflexivity.
Qed.

Lemma rgbToHex_bytes (r g b : Z) :
  isByte r -> isByte g -> isByte b ->
  rgbToHex r g b = hexCompose r g b.
Proof.
  intros Hr Hg Hb.
  pose proof (padded_byte r Hr) as Pr.
  pose proof (padded_byte g Hg) as Pg.
  pose proof (padded_byte b Hb) as Pb.
  unfold rgbToHex, hexCompose, join. cbn [map String.concat].
  cbv zeta in Pr, Pg, Pb |- *.
  rewrite Pr, Pg, Pb. reflexivity.
Qed.

Lemma hexCompose_isColorString (r g b : Z) :
  isByte r -> isByte g -> isByte b ->
  isColorString (hexCompose r g b) = true.
Proof.
  intros Hr Hg Hb.
  assert (Hdigits : forall x, isByte x ->
            forallb isLowerHexDigit (list_ascii_of_string (hexByte x)) = true).
  { apply (byte_forall
             (fun x => forallb isLowerHexDigit (list_ascii_of_string (hexByte x)))).
    vm_compute. reflexivity. }
  pose proof (Hdigits r Hr) as Dr.
  pose proof (Hdigits g Hg) as Dg.
  pose proof (Hdigits b Hb) as Db.
  unfold hexCompose, hexByte in *. cbn in *.
  rewrite !andb_true_r in *.
  apply andb_prop in Dr, Dg, Db.
  destruct Dr as [-> ->], Dg as [-> ->], Db as [-> ->]. reflexivity.
Qed.

End Bytes.

Section HexLength.

(** [toString(16)] gives a single character only below 16. *)
Lemma toString16_one_digit (x : Z) :
  0 <= x -> String.length (toString16 x) = 1%nat -> x < 16.
Proof.
  intros Hx Hlen. destruct x as [|p|p]; [lia| |lia].
  unfold toString16 in Hlen. cbn [Z.to_hex_int NilZero.string_of_int] in Hlen.
  pose proof (HexadecimalPos.Unsigned.of_to p) as Hback.
  destruct (Pos.to_hex_uint p) as [|d|d|d|d|d|d|d|d|d|d|d|d|d|d|d|d];
    try (destruct d; cbn in Hlen; try discriminate Hlen);
    cbn in Hback; first [discriminate Hback | injection Hback as <-; lia].
Qed.

(** From 16 on, [rgbToHex] pads nothing. *)
Lemma rgbToHex_unpadded (x : Z) :
  16 <= x ->
  rgbToHex x x x = "#" ++ toString16 x ++ toString16 x ++ toString16 x.
Proof.
  intro Hx. unfold rgbToHex, join. cbn [map String.concat]. cbv zeta.
  destruct (Nat.eqb_spec (String.length (toString16 x)) 1) as [Hone|_].
  - apply toString16_one_digit in Hone; lia.
  - reflexivity.
Qed.

End HexLength.

Section Wrap.

Lemma ToInt32_small (x : Z) : - 2 ^ 31 <= x < 2 ^ 31 -> ToInt32 x = x.
Proof.
  intro Hx. unfold ToInt32. rewrite Z.mod_small by lia. lia.
Qed.

(** Wrapping does not touch the low byte. *)
Lemma band_255 (x : Z) : band x 255 = x mod 256.
Proof.
  unfold band. change (ToInt32 255) with (Z.ones 8).
  rewrite Z.land_ones by lia. change (2 ^ 8) with 256.
  unfold ToInt32.
  pose proof (Z.mod_pos_bound (x + 2 ^ 31) (2 ^ 32) ltac:(lia)) as Hm.
  pose proof (Z.div_mod (x + 2 ^ 31) (2 ^ 32) ltac:(lia)) as Hd.
  set (q := (x + 2 ^ 31) / 2 ^ 32) in *.
  set (m := (x + 2 ^ 31) mod 2 ^ 32) in *.
  replace (m - 2 ^ 31) with (x + (- q * 2 ^ 24) * 256) by lia.
  apply Z.mod_add. lia.
Qed.

Lemma band_255_byte (x : Z) : isByte (band x 255).
Proof.
  rewrite band_255. unfold isByte. apply Z.mod_pos_bound. lia.
Qed.

(** On a non-negative 31-bit value the shift is a plain division. *)
Lemma sar_small (x n : Z) :
  0 <= x < 2 ^ 31 -> 0 <= n < 32 -> sar x n = x / 2 ^ n.
Proof.
  intros Hx Hn. unfold sar. rewrite ToInt32_small by lia.
  change 31 with (Z.ones 5). rewrite Z.land_ones by lia.
  rewrite Z.mod_small by (change (2 ^ 5) with 32; lia).
  apply Z.shiftr_div_pow2. lia.
Qed.

(** A byte taken at a divisor [d] of 2^16 does not see a multiple of 2^24:
    [d * 256 * e = 2^24]. *)
Lemma byte_ignores_high_bits (m q d e : Z) :
  0 < d -> d * 256 * e = 16777216 ->
  ((16777216 * q + m) / d) mod 256 = (m / d) mod 256.
Proof.
  intros Hd He.
  replace (16777216 * q + m) with (m + (q * e * 256) * d) by (rewrite <- He; ring).
  rewrite Z.div_add by lia.
  apply Z.mod_add. lia.
Qed.

End Wrap.

(** ** ColorResolver: [getColor] *)

Section ColorResolver.

Import ColorMode.

(** The three channels of the color cube are bytes. *)
Lemma cubeChannel_byte (k : Z) : 0 <= k < 6 -> isByte (cubeChannel k).
Proof.
  intro Hk. unfold cubeChannel, isByte.
  destruct (Z.eqb_spec k 0); lia.
Qed.

Lemma truthyNum_cubeChannel (k : Z) :
  (if truthyNum k then k * 40 + 55 else 0) = cubeChannel k.
Proof.
  unfold truthyNum, cubeChannel. destruct (k =? 0); reflexivity.
Qed.

(** The palette branch taken from 232 on, whatever the value. *)
Lemma getColor_palette_gray (value : Z) :
  232 <= value ->
  getColor PALETTE value
  = Str (rgbToHex (grayLevel value) (grayLevel value) (grayLevel value)).
Proof.
  intro Hv. unfold getColor. cbn [PALETTE DEFAULT Z.eqb Pos.eqb].
  destruct (Z.ltb_spec value 16); [lia|].
  destruct (Z.ltb_spec value 232); [lia|].
  reflexivity.
Qed.

(** The three channels [getColor] extracts in RGB mode from a
    non-negative value below 2^31. *)
Lemma getColor_rgb_channels (value : Z) :
  0 <= value < 2 ^ 31 ->
  getColor RGB value
  = Str (hexCompose ((value / 65536) mod 256) ((value / 256) mod 256) (value mod 256)).
Proof.
  intro Hv. unfold getColor. cbn [RGB PALETTE DEFAULT Z.eqb Pos.eqb].
  rewrite !band_255, !sar_small by lia.
  change (2 ^ 16) with 65536. change (2 ^ 8) with 256.
  rewrite rgbToHex_bytes; [reflexivity| | |];
    unfold isByte; apply Z.mod_pos_bound; lia.
Qed.

(** The components of the color cube, as the source computes them, lie
    in 0..5. *)
Lemma cube_components (value : Z) :
  16 <= value < 232 ->
  0 <= (value - 16) / 36 < 6
  /\ 0 <= ((value - 16) mod 36) / 6 < 6
  /\ 0 <= (value - 16) mod 6 < 6.
Proof.
  intro Hv.
  pose proof (Z.mod_pos_bound (value - 16) 36 ltac:(lia)).
  pose proof (Z.mod_pos_bound (value - 16) 6 ltac:(lia)).
  repeat split; try lia;
    first [apply Z.div_pos; lia | apply Z.div_lt_upper_bound; lia].
Qed.

(** The palette branch for the color cube. *)
Lemma getColor_palette_cube_channels (value : Z) :
  16 <= value < 232 ->
  getColor PALETTE value
  = Str (hexCompose (cubeChannel ((value - 16) / 36))
                    (cubeChannel (((value - 16) mod 36) / 6))
                    (cubeChannel ((value - 16) mod 6))).
Proof.
  intro Hv. destruct (cube_components value Hv) as (Hr & Hg & Hb).
  unfold getColor. cbn [PALETTE DEFAULT Z.eqb Pos.eqb].
  destruct (Z.ltb_spec value 16); [lia|].
  destruct (Z.ltb_spec value 232); [|lia].
  cbv zeta. unfold floorDiv, rem.
  rewrite !Z.rem_mod_nonneg by lia.
  rewrite !truthyNum_cubeChannel.
  rewrite rgbToHex_bytes by (apply cubeChannel_byte; assumption).
  reflexivity.
Qed.

(** The palette branch for the grayscale ramp proper. *)
Lemma getColor_palette_ramp_channels (value : Z) :
  232 <= value < 256 ->
  getColor PALETTE value
  = Str (hexCompose (grayLevel value) (grayLevel value) (grayLevel value)).
Proof.
  intro Hv. rewrite getColor_palette_gray by lia.
  assert (Hgray : isByte (grayLevel value)) by (unfold isByte, grayLevel; lia).
  rewrite rgbToHex_bytes by exact Hgray. reflexivity.
Qed.

(** C1, as the specification states it, fails: in PALETTE mode the value
    256 is answered by the grayscale branch with "#f8f8f8", not by the
    empty string. *)
Lemma getColor_palette_256_not_empty :
  getColor PALETTE 256 = Str "#f8f8f8" /\ getColor PALETTE 256 <> Str "".
Proof.
  split.
  - vm_compute. reflexivity.
  - vm_compute. discriminate.
Qed.

(** C1, amended: for every PALETTE value from 256 on, [getColor] takes
    the grayscale branch and returns a string that is never empty; as
    long as gray = (value - 232) * 10 + 8 does not exceed
    [MAX_SAFE_INTEGER], so that the source computes it exactly, that
    string is "#" followed by three copies of the unpadded lowercase
    hexadecimal form of gray. *)
Theorem getColor_palette_beyond_ramp (value : Z) :
  256 <= value ->
  truthy (getColor PALETTE value) = true
  /\ ((value - 232) * 10 + 8 <= MAX_SAFE_INTEGER ->
      getColor PALETTE value
      = Str ("#" ++ toString16 ((value - 232) * 10 + 8)
                 ++ toString16 ((value - 232) * 10 + 8)
                 ++ toString16 ((value - 232) * 10 + 8))).
Proof.
  intro Hv.
  rewrite getColor_palette_gray by lia. unfold grayLevel.
  rewrite rgbToHex_unpadded by lia.
  split; [reflexivity | intros _; reflexivity].
Qed.

Lemma getColor_palette_beyond_ramp_witness :
  256 <= 257
  /\ (257 - 232) * 10 + 8 <= MAX_SAFE_INTEGER
  /\ truthy (getColor PALETTE 257) = true
  /\ getColor PALETTE 257 = Str "#102102102".
Proof.
  split; [lia|]. split; [unfold MAX_SAFE_INTEGER; lia|].
  destruct (getColor_palette_beyond_ramp 257) as [Htruthy Hdigits]; [lia|].
  split; [exact Htruthy|].
  apply Hdigits. unfold MAX_SAFE_INTEGER. lia.
Defined.

(** C2: for every value in [16,232), PALETTE mode computes c = value - 16,
    r = floor(c/36), g = floor((c mod 36)/6), b = c mod 6, sends each
    component k to 0 when k = 0 and to k*40+55 otherwise, and returns the
    hex composition of the three channels; 16 gives "#000000" and 231
    gives "#ffffff". *)
Theorem getColor_palette_cube :
  (forall value : Z,
      16 <= value < 232 ->
      getColor PALETTE value
      = Str (hexCompose (cubeChannel ((value - 16) / 36))
                        (cubeChannel (((value - 16) mod 36) / 6))
                        (cubeChannel ((value - 16) mod 6))))
  /\ getColor PALETTE 16 = Str "#000000"
  /\ getColor PALETTE 231 = Str "#ffffff".
Proof.
  split; [|split; vm_compute; reflexivity].
  exact getColor_palette_cube_channels.
Qed.

Lemma getColor_palette_cube_witness :
  16 <= 110 < 232 /\ getColor PALETTE 110 = Str "#87afd7".
Proof.
  split; [lia | apply (proj1 getColor_palette_cube 110); lia].
Defined.

(** C3: for every value in [232,256), PALETTE mode returns the hex string
    whose three channels all equal gray = (value - 232)*10 + 8; 232 gives
    "#080808" and 255 gives "#eeeeee". *)
Theorem getColor_palette_ramp :
  (forall value : Z,
      232 <= value < 256 ->
      getColor PALETTE value
      = Str (hexCompose (grayLevel value) (grayLevel value) (grayLevel value)))
  /\ getColor PALETTE 232 = Str "#080808"
  /\ getColor PALETTE 255 = Str "#eeeeee".
Proof.
  split; [|split; vm_compute; reflexivity].
  exact getColor_palette_ramp_channels.
Qed.

Lemma getColor_palette_ramp_witness :
  232 <= 240 < 256 /\ getColor PALETTE 240 = Str "#585858".
Proof.
  split; [lia | apply (proj1 getColor_palette_ramp 240); lia].
Defined.

(** C4: for every 24-bit value, RGB mode returns the hex composition of
    exactly the three packed bytes r = (value >> 16) & 0xFF,
    g = (value >> 8) & 0xFF and b = value & 0xFF; 0xFF8000 gives
    "#ff8000". *)
Theorem getColor_rgb_packed_bytes :
  (forall value : Z,
      0 <= value < 2 ^ 24 ->
      getColor RGB value
      = Str (hexCompose (Z.land (Z.shiftr value 16) 255)
                        (Z.land (Z.shiftr value 8) 255)
                        (Z.land value 255)))
  /\ getColor RGB 0xFF8000 = Str "#ff8000".
Proof.
  split; [|vm_compute; reflexivity].
  intros value Hv. rewrite getColor_rgb_channels by lia.
  change 255 with (Z.ones 8). rewrite !Z.land_ones by lia.
  rewrite !Z.shiftr_div_pow2 by lia.
  reflexivity.
Qed.

Lemma getColor_rgb_packed_bytes_witness :
  0 <= 0x123456 < 2 ^ 24 /\ getColor RGB 0x123456 = Str "#123456".
Proof.
  split; [lia | apply (proj1 getColor_rgb_packed_bytes 0x123456); lia].
Defined.

(** C5: for every value in [0,16), PALETTE mode returns the entry of the
    fixed sixteen-entry table at that position; 1 gives "#cd0000". *)
Theorem getColor_palette_ansi :
  List.length colorPalette = 16%nat
  /\ (forall value : Z,
        0 <= value < 16 ->
        exists entry : string,
          nth_error colorPalette (Z.to_nat value) = Some entry
          /\ getColor PALETTE value = Str entry)
  /\ getColor PALETTE 1 = Str "#cd0000".
Proof.
  split; [reflexivity|]. split; [|vm_compute; reflexivity].
  intros value Hv. unfold getColor. cbn [PALETTE DEFAULT Z.eqb Pos.eqb].
  destruct (Z.ltb_spec value 16); [|lia].
  unfold index. destruct (Z.ltb_spec value 0); [lia|].
  destruct (nth_error colorPalette (Z.to_nat value)) as [entry|] eqn:Hnth.
  - exists entry. split; reflexivity.
  - apply nth_error_None in Hnth. change (List.length colorPalette) with 16%nat in Hnth.
    lia.
Qed.

Lemma getColor_palette_ansi_witness :
  0 <= 12 < 16
  /\ exists entry : string,
      nth_error colorPalette (Z.to_nat 12) = Some entry
      /\ getColor PALETTE 12 = Str entry.
Proof.
  split; [lia | apply (proj1 (proj2 getColor_palette_ansi) 12); lia].
Defined.

(** C6: mode DEFAULT gives "" for every color value, and so does every
    mode other than DEFAULT, PALETTE and RGB; the function has no other
    outcome there (it is total and returns a string). *)
Theorem getColor_default_and_unknown_mode :
  (forall color : Z, getColor DEFAULT color = Str "")
  /\ (forall mode color : Z,
        mode <> DEFAULT -> mode <> PALETTE -> mode <> RGB ->
        getColor mode color = Str "").
Proof.
  split.
  - intro color. reflexivity.
  - intros mode color Hd Hp Hr. unfold getColor.
    destruct (Z.eqb_spec mode DEFAULT); [contradiction|].
    destruct (Z.eqb_spec mode PALETTE); [contradiction|].
    destruct (Z.eqb_spec mode RGB); [contradiction|].
    reflexivity.
Qed.

Lemma getColor_default_and_unknown_mode_witness :
  3 <> DEFAULT /\ 3 <> PALETTE /\ 3 <> RGB /\ getColor 3 300 = Str "".
Proof.
  unfold DEFAULT, PALETTE, RGB.
  split; [lia|]. split; [lia|]. split; [lia|].
  apply (proj2 getColor_default_and_unknown_mode 3 300);
    unfold DEFAULT, PALETTE, RGB; lia.
Defined.

(** C9: on the documented domain (PALETTE with a value in [0,256), RGB
    with a 24-bit value) the result is a string of exactly 7 characters:
    "#" and then 6 lowercase hexadecimal digits, two per channel. *)
Theorem getColor_well_formed (mode value : Z) :
  (mode = PALETTE /\ 0 <= value < 256) \/ (mode = RGB /\ 0 <= value < 2 ^ 24) ->
  exists s : string,
    getColor mode value = Str s
    /\ String.length s = 7%nat
    /\ isColorString s = true.
Proof.
  assert (Hlen : forall r g b, String.length (hexCompose r g b) = 7%nat)
    by reflexivity.
  intros [[-> Hv] | [-> Hv]].
  - destruct (Z.ltb_spec value 16) as [Hansi|Hhigh];
      [|destruct (Z.ltb_spec value 232) as [Hcube|Hramp]].
    + assert (Hcheck :
        (if value <? 16
         then match getColor PALETTE value with
              | Str s => (String.length s =? 7)%nat && isColorString s
              | Undefined => false
              end
         else true) = true).
      { apply (byte_forall
                 (fun v => if v <? 16
                           then match getColor PALETTE v with
                                | Str s => (String.length s =? 7)%nat && isColorString s
                                | Undefined => false
                                end
                           else true)).
        - vm_compute. reflexivity.
        - unfold isByte. lia. }
      destruct (Z.ltb_spec value 16); [|lia].
      destruct (getColor PALETTE value) as [s|]; [|discriminate Hcheck].
      apply andb_prop in Hcheck. destruct Hcheck as [Hl Hc].
      exists s. split; [reflexivity|]. split; [|exact Hc].
      apply Nat.eqb_eq. exact Hl.
    + rewrite getColor_palette_cube_channels by lia.
      eexists. split; [reflexivity|]. split; [apply Hlen|].
      destruct (cube_components value ltac:(lia)) as (Hr & Hg & Hb).
      apply hexCompose_isColorString; apply cubeChannel_byte; assumption.
    + rewrite getColor_palette_ramp_channels by lia.
      eexists. split; [reflexivity|]. split; [apply Hlen|].
      apply hexCompose_isColorString; unfold isByte, grayLevel; lia.
  - rewrite getColor_rgb_channels by lia.
    eexists. split; [reflexivity|]. split; [apply Hlen|].
    apply hexCompose_isColorString; unfold isByte; apply Z.mod_pos_bound; lia.
Qed.

Lemma getColor_well_formed_witness :
  exists s : string,
    getColor PALETTE 9 = Str s
    /\ String.length s = 7%nat
    /\ isColorString s = true.
Proof.
  apply (getColor_well_formed PALETTE 9). left. split; [reflexivity | lia].
Defined.

(** C10: RGB mode depends only on the low 24 bits: for every non-negative
    value below 2^31, [getColor RGB value] equals
    [getColor RGB (value mod 2^24)]. *)
Theorem getColor_rgb_low_24_bits (value : Z) :
  0 <= value < 2 ^ 31 ->
  getColor RGB value = getColor RGB (value mod 2 ^ 24).
Proof.
  intro Hv.
  pose proof (Z.mod_pos_bound value (2 ^ 24) ltac:(lia)) as Hm.
  rewrite (getColor_rgb_channels value) by lia.
  rewrite (getColor_rgb_channels (value mod 2 ^ 24)) by lia.
  change (2 ^ 24) with 16777216 in *.
  pose proof (Z.div_mod value 16777216 ltac:(lia)) as Hsplit.
  set (low := value mod 16777216) in *.
  rewrite <- (Z.div_1_r value), <- (Z.div_1_r low) at 3.
  rewrite Hsplit at 1 2 3.
  rewrite (byte_ignores_high_bits low _ 65536 1) by lia.
  rewrite (byte_ignores_high_bits low _ 256 256) by lia.
  rewrite (byte_ignores_high_bits low _ 1 65536) by lia.
  rewrite !Z.div_1_r. reflexivity.
Qed.

Lemma getColor_rgb_low_24_bits_witness :
  0 <= 0x7FFF8000 < 2 ^ 31
  /\ getColor RGB 0x7FFF8000 = getColor RGB (0x7FFF8000 mod 2 ^ 24).
Proof.
  split; [lia | apply (getColor_rgb_low_24_bits 0x7FFF8000); lia].
Defined.

End ColorResolver.

(** ** CellStyleExtractor: [prepareCellForDomRenderer] *)

Section CellStyleExtractor.

Context {C : Type} `{IBufferCell C}.

(** C7: the class list is the space-joined list of the tokens of the
    attribute checks that are true, taken in the order bold, italic, dim,
    underline, strikethrough, blink, invisible, each check deciding on its
    own token only; a cell with only [isBold] true gets "xterm-bold". *)
Theorem classList_attribute_order (cell : C) :
  classList (prepareCellForDomRenderer cell) = join " " (activeTokens cell)
  /\ (isBold cell = true -> isItalic cell = false -> isDim cell = false ->
      isUnderline cell = false -> isStrikethrough cell = false ->
      isBlink cell = false -> isInvisible cell = false ->
      classList (prepareCellForDomRenderer cell) = "xterm-bold").
Proof.
  unfold prepareCellForDomRenderer, activeTokens, attributeTokens.
  cbn [classList filter map fst snd].
  split.
  - destruct (isBold cell), (isItalic cell), (isDim cell), (isUnderline cell),
      (isStrikethrough cell), (isBlink cell), (isInvisible cell);
      reflexivity.
  - intros -> -> -> -> -> -> ->. reflexivity.
Qed.

(** C8: the style string is the "; "-joined list holding "color: <fg>"
    exactly when the foreground color resolves to a non-empty string and
    "background-color: <bg>" exactly when the background color does, the
    foreground entry first; with a DEFAULT foreground and PALETTE
    background 1 it is "background-color: #cd0000"; the text content is
    the cell's characters, unchanged. *)
Theorem style_declarations_and_text (cell : C) :
  style (prepareCellForDomRenderer cell)
  = join "; "
      (declaration "color" (getColor (getFgColorMode cell) (getFgColor cell))
       ++ declaration "background-color"
            (getColor (getBgColorMode cell) (getBgColor cell)))%list
  /\ (getFgColorMode cell = ColorMode.DEFAULT ->
      getBgColorMode cell = ColorMode.PALETTE ->
      getBgColor cell = 1 ->
      style (prepareCellForDomRenderer cell) = "background-color: #cd0000")
  /\ textContent (prepareCellForDomRenderer cell) = getChars cell.
Proof.
  unfold prepareCellForDomRenderer. cbn [style textContent].
  split; [|split; [|reflexivity]].
  - destruct (getColor (getFgColorMode cell) (getFgColor cell)) as [[|a s]|];
      destruct (getColor (getBgColorMode cell) (getBgColor cell)) as [[|b t]|];
      reflexivity.
  - intros -> -> ->. vm_compute. reflexivity.
Qed.

End CellStyleExtractor.

Lemma classList_attribute_order_witness :
  classList
    (prepareCellForDomRenderer
       {| bold := true; italic := false; dim := false; underline := false;
          strikethrough := false; blink := false; invisible := false;
          fgColorMode := ColorMode.RGB; fgColor := 0xFF8000;
          bgColorMode := ColorMode.DEFAULT; bgColor := 0;
          chars := "k" |})
  = "xterm-bold".
Proof.
  apply classList_attribute_order; reflexivity.
Defined.

Lemma style_declarations_and_text_witness :
  style
    (prepareCellForDomRenderer
       {| bold := false; italic := true; dim := false; underline := false;
          strikethrough := false; blink := false; invisible := false;
          fgColorMode := ColorMode.DEFAULT; fgColor := 7;
          bgColorMode := ColorMode.PALETTE; bgColor := 1;
          chars := "k" |})
  = "background-color: #cd0000".
Proof.
  apply style_declarations_and_text; reflexivity.
Defined.

(** ** Behaviour at the edges of the documented domain *)

(** A negative palette index reads outside the table: the result is
    [undefined], which the extractor treats as "no color". *)
Example getColor_palette_negative : getColor ColorMode.PALETTE (-1) = Undefined.
Proof. reflexivity. Qed.

Example undefined_color_adds_no_declaration :
  style
    (prepareCellForDomRenderer
       {| bold := false; italic := false; dim := false; underline := false;
          strikethrough := false; blink := false; invisible := false;
          fgColorMode := ColorMode.PALETTE; fgColor := -1;
          bgColorMode := ColorMode.DEFAULT; bgColor := 0;
          chars := "k" |})
  = "".
Proof. reflexivity. Qed.

(** From 257 on the grayscale level no longer fits a byte and the result
    is not a 7-character color string. *)
Example getColor_palette_257_malformed :
  getColor ColorMode.PALETTE 257 = Str "#102102102"
  /\ isColorString "#102102102" = false.
Proof. split; vm_compute; reflexivity. Qed.

(** In RGB mode a negative value is wrapped, not rejected. *)
Example getColor_rgb_negative : getColor ColorMode.RGB (-1) = Str "#ffffff".
Proof. vm_compute. reflexivity. Qed.

Example plainCell_renders_empty :
  prepareCellForDomRenderer plainCell
  = {| classList := ""; style := ""; textContent := "" |}.
Proof. reflexivity. Qed.

(** * Further properties of the resolver and the extractor *)

(** ** [rgbToHex] on arbitrary integers *)

Section ChannelHex.

Lemma length_append (s t : string) :
  String.length (s ++ t) = (String.length s + String.length t)%nat.
Proof.
  induction s as [|a s IH]; cbn; [reflexivity | rewrite IH; reflexivity].
Qed.

Lemma list_ascii_of_string_append (s t : string) :
  list_ascii_of_string (s ++ t)
  = (list_ascii_of_string s ++ list_ascii_of_string t)%list.
Proof.
  induction s as [|a s IH]; cbn; [reflexivity | rewrite IH; reflexivity].
Qed.

Lemma rgbToHex_channelHex (r g b : Z) :
  rgbToHex r g b = "#" ++ channelHex r ++ channelHex g ++ channelHex b.
Proof. reflexivity. Qed.

(** At most two characters only below 256. *)
Lemma toString16_two_digits (x : Z) :
  0 <= x -> (String.length (toString16 x) <= 2)%nat -> x < 256.
Proof.
  intros Hx Hlen. destruct x as [|p|p]; [lia| |lia].
  unfold toString16 in Hlen. cbn [Z.to_hex_int NilZero.string_of_int] in Hlen.
  pose proof (HexadecimalPos.Unsigned.of_to p) as Hback.
  destruct (Pos.to_hex_uint p) as [|d|d|d|d|d|d|d|d|d|d|d|d|d|d|d|d];
    try (destruct d as [|e|e|e|e|e|e|e|e|e|e|e|e|e|e|e|e];
         try (destruct e; cbn in Hlen; try lia));
    cbn in Hback; first [discriminate Hback | injection Hback as <-; lia].
Qed.

(** A negative number is written with a minus sign and at least one
    digit. *)
Lemma toString16_negative (x : Z) :
  x < 0 ->
  exists digits : string,
    toString16 x = String "-" digits /\ (1 <= String.length digits)%nat.
Proof.
  intro Hx. destruct x as [|p|p]; [lia|lia|].
  unfold toString16. cbn [Z.to_hex_int NilZero.string_of_int].
  exists (NilZero.string_of_uint (Pos.to_hex_uint p)). split; [reflexivity|].
  pose proof (HexadecimalPos.Unsigned.to_uint_nonnil p) as Hnil.
  destruct (Pos.to_hex_uint p); [contradiction| ..]; cbn; lia.
Qed.

Lemma toString16_nonempty (x : Z) : (1 <= String.length (toString16 x))%nat.
Proof.
  destruct x as [|p|p]; [cbn; lia| |].
  - unfold toString16. cbn [Z.to_hex_int NilZero.string_of_int].
    pose proof (HexadecimalPos.Unsigned.to_uint_nonnil p) as Hnil.
    destruct (Pos.to_hex_uint p); [contradiction| ..]; cbn; lia.
  - destruct (toString16_negative (Z.neg p) ltac:(lia)) as (digits & -> & _).
    cbn. lia.
Qed.

(** Every channel takes at least two characters. *)
Lemma channelHex_length (x : Z) : (2 <= String.length (channelHex x))%nat.
Proof.
  unfold channelHex. cbv zeta.
  pose proof (toString16_nonempty x) as Hne.
  destruct (Nat.eqb_spec (String.length (toString16 x)) 1) as [Hone|Hmore].
  - rewrite length_append, Hone. cbn. lia.
  - lia.
Qed.

(** A channel of exactly two lowercase hexadecimal digits is a byte. *)
Lemma channelHex_byte (x : Z) :
  String.length (channelHex x) = 2%nat ->
  forallb isLowerHexDigit (list_ascii_of_string (channelHex x)) = true ->
  isByte x.
Proof.
  intros Hlen Hdigits. unfold isByte.
  destruct (Z.lt_ge_cases x 0) as [Hneg|Hpos].
  - destruct (toString16_negative x Hneg) as (digits & Hform & Hd).
    unfold channelHex in Hdigits. cbv zeta in Hdigits. rewrite Hform in Hdigits.
    cbn [String.length] in Hdigits.
    destruct (Nat.eqb_spec (S (String.length digits)) 1) as [Hone|_]; [lia|].
    cbn in Hdigits. discriminate Hdigits.
  - split; [exact Hpos|]. apply toString16_two_digits; [exact Hpos|].
    unfold channelHex in Hlen. cbv zeta in Hlen.
    destruct (Nat.eqb_spec (String.length (toString16 x)) 1) as [Hone|_]; lia.
Qed.

(** A well-formed result leaves room for two digits per channel only. *)
Lemma rgbToHex_isColorString_bytes (r g b : Z) :
  isColorString (rgbToHex r g b) = true -> isByte r /\ isByte g /\ isByte b.
Proof.
  intro Hwf. rewrite rgbToHex_channelHex in Hwf. cbn [append isColorString] in Hwf.
  apply andb_prop in Hwf. destruct Hwf as [Hlen Hdigits].
  apply Nat.eqb_eq in Hlen. rewrite !length_append in Hlen.
  rewrite !list_ascii_of_string_append, !forallb_app in Hdigits.
  apply andb_prop in Hdigits. destruct Hdigits as [Dr Dgb].
  apply andb_prop in Dgb. destruct Dgb as [Dg Db].
  pose proof (channelHex_length r). pose proof (channelHex_length g).
  pose proof (channelHex_length b).
  split; [|split]; apply channelHex_byte; (lia || assumption).
Qed.

(** X1: [rgbToHex] gives a well-formed color string ("#" and six
    lowercase hexadecimal digits) exactly when all three channels are
    integers in 0..255; any other integer channel makes the result longer
    or puts a minus sign into it. *)
Theorem rgbToHex_well_formed_iff_bytes (r g b : Z) :
  isColorString (rgbToHex r g b) = true <-> isByte r /\ isByte g /\ isByte b.
Proof.
  split.
  - apply rgbToHex_isColorString_bytes.
  - intros (Hr & Hg & Hb). rewrite rgbToHex_bytes by assumption.
    apply hexCompose_isColorString; assumption.
Qed.

End ChannelHex.

(** ** [getColor] outside the documented domain *)

Section ResolverEdges.

Import ColorMode.

Lemma index_colorPalette_negative (value : Z) :
  value < 0 -> index colorPalette value = Undefined.
Proof.
  intro Hv. unfold index. destruct (Z.ltb_spec value 0); [reflexivity | lia].
Qed.

(** Inside the table the entry is a non-empty string. *)
Lemma index_colorPalette_entry (value : Z) :
  0 <= value < 16 ->
  exists a s, index colorPalette value = Str (String a s).
Proof.
  intro Hv.
  assert (Hcheck :
    (if value <? 16
     then match index colorPalette value with
          | Str (String _ _) => true
          | _ => false
          end
     else true) = true).
  { apply (byte_forall
             (fun v => if v <? 16
                       then match index colorPalette v with
                            | Str (String _ _) => true
                            | _ => false
                            end
                       else true)).
    - vm_compute. reflexivity.
    - unfold isByte. lia. }
  destruct (Z.ltb_spec value 16); [|lia].
  destruct (index colorPalette value) as [[|a s]|]; try discriminate Hcheck.
  exists a, s. reflexivity.
Qed.

Lemma getColor_palette_table (value : Z) :
  value < 16 -> getColor PALETTE value = index colorPalette value.
Proof.
  intro Hv. unfold getColor. cbn [PALETTE DEFAULT Z.eqb Pos.eqb].
  destruct (Z.ltb_spec value 16); [reflexivity | lia].
Qed.

(** From 16 on the palette branch always answers with [rgbToHex]. *)
Lemma getColor_palette_computed (value : Z) :
  16 <= value -> exists r g b, getColor PALETTE value = Str (rgbToHex r g b).
Proof.
  intro Hv. unfold getColor. cbn [PALETTE DEFAULT Z.eqb Pos.eqb].
  destruct (Z.ltb_spec value 16); [lia|].
  destruct (value <? 232); eexists _, _, _; reflexivity.
Qed.

(** The sixteen table entries are well-formed color strings. *)
Lemma getColor_palette_table_well_formed (value : Z) :
  0 <= value < 16 ->
  exists s : string, getColor PALETTE value = Str s /\ isColorString s = true.
Proof.
  intro Hv.
  assert (Hcheck :
    (if value <? 16
     then match getColor PALETTE value with
          | Str s => isColorString s
          | Undefined => false
          end
     else true) = true).
  { apply (byte_forall
             (fun v => if v <? 16
                       then match getColor PALETTE v with
                            | Str s => isColorString s
                            | Undefined => false
                            end
                       else true)).
    - vm_compute. reflexivity.
    - unfold isByte. lia. }
  destruct (Z.ltb_spec value 16); [|lia].
  destruct (getColor PALETTE value) as [s|]; [|discriminate Hcheck].
  exists s. split; [reflexivity | exact Hcheck].
Qed.

(** X2: [getColor] returns [undefined] instead of a string in exactly one
    situation: PALETTE mode with a negative color value, which reads the
    table at a negative index. *)
Theorem getColor_undefined_iff (mode value : Z) :
  getColor mode value = Undefined <-> mode = PALETTE /\ value < 0.
Proof.
  split.
  - intro Hu. unfold getColor in Hu.
    destruct (Z.eqb_spec mode DEFAULT); [discriminate Hu|].
    destruct (Z.eqb_spec mode PALETTE) as [Hp|Hp].
    + split; [exact Hp|].
      destruct (Z.ltb_spec value 16) as [Hlow|Hhigh].
      * destruct (Z.lt_ge_cases value 0) as [Hneg|Hpos]; [exact Hneg|].
        destruct (index_colorPalette_entry value ltac:(lia)) as (a & s & Hentry).
        rewrite Hentry in Hu. discriminate Hu.
      * destruct (value <? 232); discriminate Hu.
    + destruct (mode =? RGB); discriminate Hu.
  - intros [-> Hv]. rewrite getColor_palette_table by lia.
    apply index_colorPalette_negative. exact Hv.
Qed.

(** When the extractor's test [if (color)] succeeds. *)
Lemma truthy_getColor (mode value : Z) :
  truthy (getColor mode value) = true
  <-> mode = RGB \/ (mode = PALETTE /\ 0 <= value).
Proof.
  split.
  - intro Ht. unfold getColor in Ht.
    destruct (Z.eqb_spec mode DEFAULT); [discriminate Ht|].
    destruct (Z.eqb_spec mode PALETTE) as [Hp|Hp].
    + right. split; [exact Hp|].
      destruct (Z.lt_ge_cases value 0) as [Hneg|Hpos]; [|exact Hpos].
      destruct (Z.ltb_spec value 16); [|lia].
      rewrite index_colorPalette_negative in Ht by exact Hneg. discriminate Ht.
    + destruct (Z.eqb_spec mode RGB) as [Hr|Hr]; [left; exact Hr | discriminate Ht].
  - intros [-> | [-> Hv]].
    + reflexivity.
    + destruct (Z.lt_ge_cases value 16) as [Hlow|Hhigh].
      * rewrite getColor_palette_table by exact Hlow.
        destruct (index_colorPalette_entry value ltac:(lia)) as (a & s & ->).
        reflexivity.
      * destruct (getColor_palette_computed value Hhigh) as (r & g & b & ->).
        reflexivity.
Qed.

(** X3: [getColor] yields a color (a non-empty string, which is what the
    extractor tests) exactly in RGB mode, for every value, and in PALETTE
    mode for every non-negative value; in particular a PALETTE value
    beyond 255 still yields one. *)
Theorem getColor_truthy_iff (mode value : Z) :
  truthy (getColor mode value) = true
  <-> mode = RGB \/ (mode = PALETTE /\ 0 <= value).
Proof. exact (truthy_getColor mode value). Qed.

(** X4: in PALETTE mode the result is a well-formed color string exactly
    for the values 0..256: 256, one past the documented range, still
    gives one ("#f8f8f8"), every larger value gives a string that is too
    long, and a negative value gives no string at all. *)
Theorem getColor_palette_well_formed_iff (value : Z) :
  (exists s : string, getColor PALETTE value = Str s /\ isColorString s = true)
  <-> 0 <= value <= 256.
Proof.
  split.
  - intros (s & Hs & Hwf).
    destruct (Z.lt_ge_cases value 0) as [Hneg|Hpos].
    + rewrite getColor_palette_table, index_colorPalette_negative in Hs by lia.
      discriminate Hs.
    + split; [exact Hpos|].
      destruct (Z.le_gt_cases value 256) as [Hin|Hout]; [exact Hin|].
      rewrite getColor_palette_gray in Hs by lia.
      injection Hs as <-.
      apply rgbToHex_isColorString_bytes in Hwf.
      destruct Hwf as [Hgray _]. unfold isByte, grayLevel in Hgray. lia.
  - intro Hv. destruct (Z.lt_ge_cases value 232) as [Hlow|Hgray].
    + destruct (Z.lt_ge_cases value 16) as [Hansi|Hcube].
      * apply getColor_palette_table_well_formed. lia.
      * rewrite getColor_palette_cube_channels by lia.
        eexists. split; [reflexivity|].
        destruct (cube_components value ltac:(lia)) as (Hr & Hg & Hb).
        apply hexCompose_isColorString; apply cubeChannel_byte; assumption.
    + rewrite getColor_palette_gray by lia.
      assert (Hbyte : isByte (grayLevel value)) by (unfold isByte, grayLevel; lia).
      rewrite rgbToHex_bytes by exact Hbyte.
      eexists. split; [reflexivity|].
      apply hexCompose_isColorString; exact Hbyte.
Qed.

End ResolverEdges.

(** ** RGB mode on every integer *)

Section RgbAnyInteger.

Import ColorMode.

(** Wrapping to 32 bits moves a value by a multiple of 2^24. *)
Lemma ToInt32_shape (x : Z) :
  ToInt32 x = 16777216 * (- 256 * ((x + 2 ^ 31) / 2 ^ 32)) + x.
Proof.
  unfold ToInt32.
  pose proof (Z.div_mod (x + 2 ^ 31) (2 ^ 32) ltac:(lia)) as Hd.
  change (2 ^ 32) with 4294967296 in *. change (2 ^ 31) with 2147483648 in *.
  lia.
Qed.

(** The byte [getColor] takes after shifting by 16, by 8 or not at all. *)
Lemma shifted_byte (x n d e : Z) :
  0 <= n < 32 -> d = 2 ^ n -> d * 256 * e = 16777216 ->
  band (sar x n) 255 = (x / d) mod 256.
Proof.
  intros Hn Hd He. rewrite band_255. unfold sar.
  change 31 with (Z.ones 5). rewrite Z.land_ones by lia.
  rewrite (Z.mod_small n) by (change (2 ^ 5) with 32; lia).
  rewrite Z.shiftr_div_pow2 by lia. rewrite <- Hd.
  rewrite ToInt32_shape.
  apply byte_ignores_high_bits with (e := e); [|exact He].
  subst d. apply Z.pow_pos_nonneg; lia.
Qed.

Lemma getColor_rgb_channels_any (value : Z) :
  getColor RGB value
  = Str (hexCompose ((value / 65536) mod 256) ((value / 256) mod 256) (value mod 256)).
Proof.
  unfold getColor. cbn [RGB PALETTE DEFAULT Z.eqb Pos.eqb]. cbv zeta.
  rewrite (shifted_byte value 16 65536 1) by (reflexivity || lia).
  rewrite (shifted_byte value 8 256 256) by (reflexivity || lia).
  rewrite band_255.
  rewrite rgbToHex_bytes; [reflexivity| | |];
    unfold isByte; apply Z.mod_pos_bound; lia.
Qed.

(** X5: RGB mode accepts every integer, negative or beyond 24 bits: the
    result is always a well-formed color string, and adding any multiple
    of 2^24 to the value does not change it. *)
Theorem getColor_rgb_any_integer (value k : Z) :
  getColor RGB (value + k * 2 ^ 24) = getColor RGB value
  /\ exists s : string, getColor RGB value = Str s /\ isColorString s = true.
Proof.
  split.
  - rewrite !getColor_rgb_channels_any. change (2 ^ 24) with 16777216.
    replace (value + k * 16777216) with (16777216 * k + value) by ring.
    pose proof (byte_ignores_high_bits value k 65536 1 ltac:(lia) ltac:(lia)) as H16.
    pose proof (byte_ignores_high_bits value k 256 256 ltac:(lia) ltac:(lia)) as H8.
    pose proof (byte_ignores_high_bits value k 1 65536 ltac:(lia) ltac:(lia)) as H0.
    rewrite !Z.div_1_r in H0.
    rewrite H16, H8, H0. reflexivity.
  - rewrite getColor_rgb_channels_any. eexists. split; [reflexivity|].
    apply hexCompose_isColorString; unfold isByte; apply Z.mod_pos_bound; lia.
Qed.

End RgbAnyInteger.

(** ** Distinct colors stay distinct *)

Section Injectivity.

Import ColorMode.

Lemma Str_injective (s t : string) : Str s = Str t -> s = t.
Proof. intro Heq. apply (f_equal toString) in Heq. exact Heq. Qed.

(** Reading the two digits of a byte gives the byte back. *)
Lemma hexByte_value (x : Z) :
  isByte x ->
  hexDigitValue (hexDigit (x / 16)) * 16 + hexDigitValue (hexDigit (x mod 16)) = x.
Proof.
  intro Hx. apply Z.eqb_eq. revert x Hx.
  apply (byte_forall
           (fun x => hexDigitValue (hexDigit (x / 16)) * 16
                     + hexDigitValue (hexDigit (x mod 16)) =? x)).
  vm_compute. reflexivity.
Qed.

(** The composed string determines the packed 24-bit number. *)
Lemma colorValue_hexCompose (r g b : Z) :
  isByte r -> isByte g -> isByte b ->
  colorValue (hexCompose r g b) = r * 65536 + g * 256 + b.
Proof.
  intros Hr Hg Hb.
  pose proof (hexByte_value r Hr) as Vr.
  pose proof (hexByte_value g Hg) as Vg.
  pose proof (hexByte_value b Hb) as Vb.
  unfold hexCompose, hexByte, colorValue, hexValue.
  cbn [append list_ascii_of_string fold_left].
  lia.
Qed.

Lemma hexCompose_injective (r g b r' g' b' : Z) :
  isByte r -> isByte g -> isByte b -> isByte r' -> isByte g' -> isByte b' ->
  hexCompose r g b = hexCompose r' g' b' -> r = r' /\ g = g' /\ b = b'.
Proof.
  intros Hr Hg Hb Hr' Hg' Hb' Heq.
  apply (f_equal colorValue) in Heq.
  rewrite !colorValue_hexCompose in Heq by assumption.
  unfold isByte in *. lia.
Qed.

(** X6: in RGB mode two different 24-bit values never give the same
    string: the string determines the value. *)
Theorem getColor_rgb_injective (v w : Z) :
  0 <= v < 2 ^ 24 -> 0 <= w < 2 ^ 24 ->
  getColor RGB v = getColor RGB w -> v = w.
Proof.
  intros Hv Hw Heq. rewrite !getColor_rgb_channels_any in Heq.
  apply Str_injective in Heq.
  apply hexCompose_injective in Heq;
    try (unfold isByte; apply Z.mod_pos_bound; lia).
  destruct Heq as (Hr & Hg & Hb).
  change (2 ^ 24) with 16777216 in *.
  pose proof (Z.div_mod v 256 ltac:(lia)) as V0.
  pose proof (Z.div_mod (v / 256) 256 ltac:(lia)) as V1.
  pose proof (Z.div_mod w 256 ltac:(lia)) as W0.
  pose proof (Z.div_mod (w / 256) 256 ltac:(lia)) as W1.
  rewrite Z.div_div in V1, W1 by lia. change (256 * 256) with 65536 in V1, W1.
  assert (Hvh : 0 <= v / 65536 < 256)
    by (split; [apply Z.div_pos; lia | apply Z.div_lt_upper_bound; lia]).
  assert (Hwh : 0 <= w / 65536 < 256)
    by (split; [apply Z.div_pos; lia | apply Z.div_lt_upper_bound; lia]).
  rewrite (Z.mod_small (v / 65536)) in Hr by lia.
  rewrite (Z.mod_small (w / 65536)) in Hr by lia.
  lia.
Qed.

Lemma getColor_rgb_injective_witness :
  0 <= 0x0A0B0C < 2 ^ 24 /\ 0 <= 0x0A0B0C < 2 ^ 24 /\ 0x0A0B0C = 0x0A0B0C.
Proof.
  split; [lia|]. split; [lia|].
  apply (getColor_rgb_injective 0x0A0B0C 0x0A0B0C); [lia | lia | reflexivity].
Defined.

Lemma cubeChannel_injective (k k' : Z) :
  0 <= k < 6 -> 0 <= k' < 6 -> cubeChannel k = cubeChannel k' -> k = k'.
Proof.
  unfold cubeChannel. intros Hk Hk'.
  destruct (Z.eqb_spec k 0), (Z.eqb_spec k' 0); lia.
Qed.

(** A cube level is never a gray level of the ramp. *)
Lemma cubeChannel_not_gray (k value : Z) :
  0 <= k < 6 -> cubeChannel k <> grayLevel value.
Proof.
  unfold cubeChannel, grayLevel. intro Hk. destruct (Z.eqb_spec k 0); lia.
Qed.

(** The three components determine the index in the cube. *)
Lemma cube_index (value : Z) :
  value - 16
  = 36 * ((value - 16) / 36) + 6 * (((value - 16) mod 36) / 6) + (value - 16) mod 6.
Proof.
  pose proof (Z.div_mod (value - 16) 36 ltac:(lia)) as H36.
  pose proof (Z.div_mod ((value - 16) mod 36) 6 ltac:(lia)) as H6.
  replace (((value - 16) mod 36) mod 6) with ((value - 16) mod 6) in H6.
  - lia.
  - symmetry. apply Z.mod_mod_divide. exists 6. reflexivity.
Qed.

(** X7: the 240 computed palette entries (color cube and grayscale ramp,
    values 16..255) are pairwise distinct: two different values never
    give the same color. *)
Theorem getColor_palette_computed_injective (v w : Z) :
  16 <= v < 256 -> 16 <= w < 256 ->
  getColor PALETTE v = getColor PALETTE w -> v = w.
Proof.
  intros Hv Hw Heq.
  assert (Hgray : forall x, 232 <= x < 256 -> isByte (grayLevel x))
    by (intros x Hx; unfold isByte, grayLevel; lia).
  destruct (Z.lt_ge_cases v 232) as [Cv|Gv], (Z.lt_ge_cases w 232) as [Cw|Gw].
  - rewrite !getColor_palette_cube_channels in Heq by lia.
    destruct (cube_components v ltac:(lia)) as (Vr & Vg & Vb).
    destruct (cube_components w ltac:(lia)) as (Wr & Wg & Wb).
    apply Str_injective in Heq.
    apply hexCompose_injective in Heq; try (apply cubeChannel_byte; assumption).
    destruct Heq as (Hr & Hg & Hb).
    apply cubeChannel_injective in Hr, Hg, Hb; try assumption.
    pose proof (cube_index v) as Iv. pose proof (cube_index w) as Iw.
    rewrite Hr, Hg, Hb in Iv. lia.
  - exfalso.
    rewrite getColor_palette_cube_channels in Heq by lia.
    rewrite getColor_palette_ramp_channels in Heq by lia.
    destruct (cube_components v ltac:(lia)) as (Vr & Vg & Vb).
    apply Str_injective in Heq.
    apply hexCompose_injective in Heq;
      try (apply cubeChannel_byte; assumption); try (apply Hgray; lia).
    destruct Heq as (Hr & _). exact (cubeChannel_not_gray _ _ Vr Hr).
  - exfalso.
    rewrite getColor_palette_ramp_channels in Heq by lia.
    rewrite getColor_palette_cube_channels in Heq by lia.
    destruct (cube_components w ltac:(lia)) as (Wr & Wg & Wb).
    apply Str_injective in Heq.
    apply hexCompose_injective in Heq;
      try (apply cubeChannel_byte; assumption); try (apply Hgray; lia).
    destruct Heq as (Hr & _). symmetry in Hr.
    exact (cubeChannel_not_gray _ _ Wr Hr).
  - rewrite !getColor_palette_ramp_channels in Heq by lia.
    apply Str_injective in Heq.
    apply hexCompose_injective in Heq; try (apply Hgray; lia).
    destruct Heq as (Hr & _). unfold grayLevel in Hr. lia.
Qed.

Lemma getColor_palette_computed_injective_witness :
  16 <= 100 < 256 /\ 16 <= 100 < 256 /\ 100 = 100.
Proof.
  split; [lia|]. split; [lia|].
  apply (getColor_palette_computed_injective 100 100); [lia | lia | reflexivity].
Defined.

End Injectivity.

Example getColor_palette_0_and_16_coincide :
  getColor ColorMode.PALETTE 0 = getColor ColorMode.PALETTE 16.
Proof. vm_compute. reflexivity. Qed.

(** ** The extractor on arbitrary cells *)

Section ExtractorEdges.

Context {C : Type} `{IBufferCell C}.

Import ColorMode.

(** The style string in terms of the two resolved colors. *)
Lemma style_as_declarations (cell : C) :
  style (prepareCellForDomRenderer cell)
  = join "; "
      (declaration "color" (getColor (getFgColorMode cell) (getFgColor cell))
       ++ declaration "background-color"
            (getColor (getBgColorMode cell) (getBgColor cell)))%list.
Proof.
  unfold prepareCellForDomRenderer. cbn [style].
  destruct (getColor (getFgColorMode cell) (getFgColor cell)) as [[|a s]|];
    destruct (getColor (getBgColorMode cell) (getBgColor cell)) as [[|b t]|];
    reflexivity.
Qed.

Lemma declaration_nil_iff (property : string) (color : jsval) :
  declaration property color = [] <-> truthy color = false.
Proof.
  destruct color as [[|a s]|]; cbn; split; intro Heq;
    (reflexivity || discriminate Heq).
Qed.

(** A join of declarations is empty only when there is none. *)
Lemma join_declarations_empty (fg bg : jsval) :
  join "; " (declaration "color" fg ++ declaration "background-color" bg)%list = ""
  <-> declaration "color" fg = [] /\ declaration "background-color" bg = [].
Proof.
  destruct fg as [[|a s]|], bg as [[|b t]|]; cbn; split;
    try (intros [Hf Hb]); try intro Heq;
    try reflexivity; try discriminate; try (split; reflexivity).
Qed.

(** X8: the class list is empty exactly when none of the seven
    attributes is set. *)
Theorem classList_empty_iff (cell : C) :
  classList (prepareCellForDomRenderer cell) = ""
  <-> isBold cell = false /\ isItalic cell = false /\ isDim cell = false
      /\ isUnderline cell = false /\ isStrikethrough cell = false
      /\ isBlink cell = false /\ isInvisible cell = false.
Proof.
  unfold prepareCellForDomRenderer. cbn [classList].
  destruct (isBold cell), (isItalic cell), (isDim cell), (isUnderline cell),
    (isStrikethrough cell), (isBlink cell), (isInvisible cell);
    cbn; split;
    solve [ intro Heq; discriminate Heq
          | intros (? & ? & ? & ? & ? & ? & ?); discriminate
          | intros; repeat split ].
Qed.

(** X9: the style string is empty exactly when neither color resolves:
    the foreground is neither RGB nor PALETTE with a non-negative value,
    and the same for the background.  The color values matter only
    through their sign in PALETTE mode. *)
Theorem style_empty_iff (cell : C) :
  style (prepareCellForDomRenderer cell) = ""
  <-> ~ (getFgColorMode cell = RGB
         \/ (getFgColorMode cell = PALETTE /\ 0 <= getFgColor cell))
      /\ ~ (getBgColorMode cell = RGB
            \/ (getBgColorMode cell = PALETTE /\ 0 <= getBgColor cell)).
Proof.
  rewrite style_as_declarations, join_declarations_empty.
  rewrite !declaration_nil_iff.
  rewrite <- !truthy_getColor.
  rewrite !not_true_iff_false. reflexivity.
Qed.

(** What a resolved color contributes when it is well-formed or absent. *)
Lemma declaration_well_formed (property : string) (color : jsval) :
  (truthy color = true ->
   exists s, color = Str s /\ isColorString s = true) ->
  declaration property color = []
  \/ exists c : string,
      declaration property color = [property ++ ": " ++ c]
      /\ isColorString c = true.
Proof.
  intro Hwf. destruct color as [[|a s]|]; cbn.
  - left. reflexivity.
  - right. destruct (Hwf eq_refl) as (c & Hc & Hok).
    apply Str_injective in Hc. subst c.
    exists (String a s). split; [reflexivity | exact Hok].
  - left. reflexivity.
Qed.

(** A truthy color is a well-formed color string unless it comes from a
    PALETTE value beyond 256. *)
Lemma getColor_truthy_well_formed (mode value : Z) :
  (mode = PALETTE -> value <= 256) ->
  truthy (getColor mode value) = true ->
  exists s, getColor mode value = Str s /\ isColorString s = true.
Proof.
  intros Hbound Ht. apply truthy_getColor in Ht.
  destruct Ht as [-> | [-> Hv]].
  - rewrite getColor_rgb_channels_any. eexists. split; [reflexivity|].
    apply hexCompose_isColorString; unfold isByte; apply Z.mod_pos_bound; lia.
  - specialize (Hbound eq_refl).
    destruct (Z.lt_ge_cases value 232) as [Hlow|Hgray].
    + destruct (Z.lt_ge_cases value 16) as [Hansi|Hcube].
      * apply getColor_palette_table_well_formed. lia.
      * rewrite getColor_palette_cube_channels by lia.
        eexists. split; [reflexivity|].
        destruct (cube_components value ltac:(lia)) as (Hr & Hg & Hb).
        apply hexCompose_isColorString; apply cubeChannel_byte; assumption.
    + rewrite getColor_palette_gray by lia.
      assert (Hbyte : isByte (grayLevel value)) by (unfold isByte, grayLevel; lia).
      rewrite rgbToHex_bytes by exact Hbyte.
      eexists. split; [reflexivity|].
      apply hexCompose_isColorString; exact Hbyte.
Qed.

(** X10: as long as no PALETTE color value exceeds 256, the style string
    is the "; "-join of at most one declaration [color: #rrggbb] followed
    by at most one declaration [background-color: #rrggbb], each with a
    well-formed color string, whatever else the cell holds. *)
Theorem style_well_formed (cell : C) :
  (getFgColorMode cell = PALETTE -> getFgColor cell <= 256) ->
  (getBgColorMode cell = PALETTE -> getBgColor cell <= 256) ->
  exists fgs bgs : list string,
    style (prepareCellForDomRenderer cell) = join "; " (fgs ++ bgs)%list
    /\ (fgs = [] \/ exists c, fgs = ["color: " ++ c] /\ isColorString c = true)
    /\ (bgs = []
        \/ exists c, bgs = ["background-color: " ++ c] /\ isColorString c = true).
Proof.
  intros Hfg Hbg.
  exists (declaration "color" (getColor (getFgColorMode cell) (getFgColor cell))),
    (declaration "background-color"
       (getColor (getBgColorMode cell) (getBgColor cell))).
  split; [apply style_as_declarations|].
  split; apply declaration_well_formed; apply getColor_truthy_well_formed;
    assumption.
Qed.

End ExtractorEdges.

Lemma style_well_formed_witness :
  exists fgs bgs : list string,
    style
      (prepareCellForDomRenderer
         {| bold := false; italic := false; dim := true; underline := false;
            strikethrough := false; blink := false; invisible := false;
            fgColorMode := ColorMode.PALETTE; fgColor := 256;
            bgColorMode := ColorMode.RGB; bgColor := -1;
            chars := "k" |})
    = join "; " (fgs ++ bgs)%list
    /\ (fgs = [] \/ exists c, fgs = ["color: " ++ c] /\ isColorString c = true)
    /\ (bgs = []
        \/ exists c, bgs = ["background-color: " ++ c] /\ isColorString c = true).
Proof.
  apply style_well_formed; cbn; intros _; lia.
Defined.

(** * The Electron/Tauri bridge *)

(** ** Runtime detection *)

Section RuntimeDetection.

Import TauriBridge.

(** X11: [getIpcRenderer] and [getRuntimeName] agree on every
    environment: the call hands out a new Tauri renderer exactly when the
    name is "Tauri", throws its own error exactly when the name is
    "Unknown", and exactly when the name is "Electron" it ends as
    [require('electron')] does there: with the [ipcRenderer] found, or
    with what the [require] or the destructuring throws.  When both
    runtimes are detected Tauri is chosen, and without a [window] nothing
    is detected. *)
Theorem getIpcRenderer_matches_getRuntimeName {Value Thrown : Type}
  (window : option Window) (required : Required Value Thrown) :
  (getIpcRenderer window required = ReturnsNewTauriIpcRenderer
   <-> getRuntimeName window = "Tauri")
  /\ (getIpcRenderer window required
      = ThrowsError "Neither Tauri nor Electron runtime detected"
      <-> getRuntimeName window = "Unknown")
  /\ (getIpcRenderer window required
      = match required with
        | Bound ipcRenderer => ReturnsValue ipcRenderer
        | Failed thrown => ThrowsOther thrown
        end
      <-> getRuntimeName window = "Electron")
  /\ (isTauriRuntime window = true -> getRuntimeName window = "Tauri")
  /\ (window = None -> getRuntimeName window = "Unknown").
Proof.
  unfold getIpcRenderer, getRuntimeName, isTauriRuntime.
  destruct window as [[t e]|]; cbn; [destruct t, e; cbn|];
    destruct required as [v|x];
    repeat split; try intro Heq;
    try discriminate; try reflexivity.
Qed.

Lemma getIpcRenderer_matches_getRuntimeName_witness :
  getRuntimeName (Some {| tauriDefined := true; electronDefined := true |})
  = "Tauri".
Proof.
  apply (getIpcRenderer_matches_getRuntimeName
           (Some {| tauriDefined := true; electronDefined := true |})
           (Failed (Value := string) "Cannot find module 'electron'")).
  reflexivity.
Defined.

(** With [window.electron] defined and no Tauri, a failing
    [require('electron')] makes the call throw although the runtime name
    is "Electron". *)
Example getIpcRenderer_electron_require_fails :
  getRuntimeName (Some {| tauriDefined := false; electronDefined := true |})
  = "Electron"
  /\ getIpcRenderer (Some {| tauriDefined := false; electronDefined := true |})
       (Failed (Value := string) "Cannot find module 'electron'")
     = ThrowsOther "Cannot find module 'electron'".
Proof. split; reflexivity. Qed.

End RuntimeDetection.

(** ** The listener registry *)

Section ListenerSets.

Import TauriBridge.

Lemma Listener_eqb_spec (l l' : Listener) : reflect (l = l') (Listener_eqb l l').
Proof.
  revert l'. induction l as [i|n c k IH]; intros [j|n' c' k']; cbn.
  - destruct (Nat.eqb_spec i j); constructor; congruence.
  - constructor. discriminate.
  - constructor. discriminate.
  - destruct (Nat.eqb_spec n n'); [|constructor; congruence].
    destruct (String.eqb_spec c c'); [|constructor; congruence].
    destruct (IH k'); constructor; congruence.
Qed.

Lemma Listener_eqb_refl (l : Listener) : Listener_eqb l l = true.
Proof. destruct (Listener_eqb_spec l l); congruence. Qed.

(** The closure [once] creates is not the listener it wraps. *)
Lemma Listener_eqb_wrapped (l : Listener) (n : nat) (c : string) :
  Listener_eqb l (Wrapped n c l) = false.
Proof.
  destruct (Listener_eqb_spec l (Wrapped n c l)) as [Heq|_]; [|reflexivity].
  exfalso. revert n c Heq.
  induction l as [i|m d k IH]; intros n c Heq; [discriminate Heq|].
  injection Heq as _ _ Hk. exact (IH m d Hk).
Qed.

Lemma setHas_app (s t : SetData) (l : Listener) :
  setHas (s ++ t)%list l = setHas s l || setHas t l.
Proof. unfold setHas. apply existsb_app. Qed.

Lemma setHas_setAdd_same (s : SetData) (l : Listener) : setHas (setAdd s l) l = true.
Proof.
  unfold setAdd. destruct (setHas s l) eqn:Hhas; [exact Hhas|].
  rewrite setHas_app. cbn. rewrite Listener_eqb_refl, orb_true_r. reflexivity.
Qed.

Lemma setAdd_present (s : SetData) (l : Listener) :
  setHas s l = true -> setAdd s l = s.
Proof. intro Hhas. unfold setAdd. rewrite Hhas. reflexivity. Qed.

Lemma setHas_setAdd_other (s : SetData) (l l' : Listener) :
  l' <> l -> setHas (setAdd s l) l' = setHas s l'.
Proof.
  intro Hne. unfold setAdd. destruct (setHas s l); [reflexivity|].
  rewrite setHas_app. cbn.
  destruct (Listener_eqb_spec l' l); [contradiction|].
  rewrite !orb_false_r. reflexivity.
Qed.

Lemma setHas_setDelete_same (s : SetData) (l : Listener) :
  setHas (setDelete s l) l = false.
Proof.
  unfold setHas, setDelete. induction s as [|slot s IH]; [reflexivity|].
  cbn. rewrite IH, orb_false_r.
  destruct (slotHolds l slot) eqn:Hslot; [reflexivity | exact Hslot].
Qed.

Lemma setHas_setDelete_other (s : SetData) (l l' : Listener) :
  l' <> l -> setHas (setDelete s l) l' = setHas s l'.
Proof.
  intro Hne. unfold setHas, setDelete. induction s as [|slot s IH]; [reflexivity|].
  cbn. rewrite IH. f_equal.
  destruct slot as [k|]; cbn; [|reflexivity].
  destruct (Listener_eqb_spec l k) as [<-|_]; [|reflexivity].
  cbn. destruct (Listener_eqb_spec l' l); [contradiction | reflexivity].
Qed.

Lemma setDelete_absent (s : SetData) (l : Listener) :
  setHas s l = false -> setDelete s l = s.
Proof.
  unfold setHas, setDelete. induction s as [|slot s IH]; [reflexivity|].
  cbn. intro Hhas. apply orb_false_elim in Hhas. destruct Hhas as [Hslot Hrest].
  rewrite Hslot, (IH Hrest). reflexivity.
Qed.

Lemma mapGet_mapSet_same (m : MapData) (k : string) (v : SetData) :
  mapGet (mapSet m k v) k = Some v.
Proof.
  induction m as [|[k' v'] m IH]; cbn.
  - rewrite String.eqb_refl. reflexivity.
  - destruct (String.eqb_spec k k') as [<-|Hne]; cbn.
    + rewrite String.eqb_refl. reflexivity.
    + destruct (String.eqb_spec k k'); [contradiction | exact IH].
Qed.

Lemma mapGet_mapSet_other (m : MapData) (k k' : string) (v : SetData) :
  k' <> k -> mapGet (mapSet m k v) k' = mapGet m k'.
Proof.
  intro Hne. induction m as [|[k0 v0] m IH]; cbn.
  - destruct (String.eqb_spec k' k); [contradiction | reflexivity].
  - destruct (String.eqb_spec k k0) as [<-|Hk]; cbn.
    + destruct (String.eqb_spec k' k); [contradiction | reflexivity].
    + rewrite IH. reflexivity.
Qed.

Lemma mapSet_mapSet (m : MapData) (k : string) (v v' : SetData) :
  mapSet (mapSet m k v) k v' = mapSet m k v'.
Proof.
  induction m as [|[k0 v0] m IH]; cbn.
  - rewrite String.eqb_refl. reflexivity.
  - destruct (String.eqb_spec k k0) as [<-|Hk]; cbn.
    + rewrite String.eqb_refl. reflexivity.
    + destruct (String.eqb_spec k k0); [contradiction|]. rewrite IH. reflexivity.
Qed.

Lemma mapSet_unchanged (m : MapData) (k : string) (v : SetData) :
  mapGet m k = Some v -> mapSet m k v = m.
Proof.
  induction m as [|[k0 v0] m IH]; cbn; [discriminate|].
  destruct (String.eqb_spec k k0) as [<-|Hk].
  - intro Heq. injection Heq as <-. reflexivity.
  - intro Heq. rewrite (IH Heq). reflexivity.
Qed.

End ListenerSets.

Section Registration.

Import TauriBridge.

Context {World Thrown : Type}.

Implicit Types st : State World Thrown.

(** [on] in one step: the listener is added to the channel's set, which
    is created when missing. *)
Lemma on_unfold (channel : string) (listener : Listener) st :
  on channel listener st
  = withListeners st
      (mapSet (listeners st) channel (setAdd (channelSet channel st) listener)).
Proof.
  unfold on, mapHas, channelSet.
  destruct (mapGet (listeners st) channel) as [s|] eqn:Hget; cbn [negb].
  - rewrite Hget. reflexivity.
  - rewrite mapGet_mapSet_same, mapSet_mapSet. reflexivity.
Qed.

Lemma channelSet_mapSet (channel : string) (m : MapData) (v : SetData) st :
  channelSet channel (withListeners st (mapSet m channel v)) = v.
Proof.
  unfold channelSet. cbn [withListeners listeners].
  rewrite mapGet_mapSet_same. reflexivity.
Qed.

Lemma registered_on_same (channel : string) (listener : Listener) st :
  registered channel listener (on channel listener st) = true.
Proof.
  rewrite on_unfold. unfold registered. cbn [withListeners listeners].
  rewrite mapGet_mapSet_same. apply setHas_setAdd_same.
Qed.

Lemma registered_on_other (channel channel' : string) (listener listener' : Listener) st :
  (channel', listener') <> (channel, listener) ->
  registered channel' listener' (on channel listener st)
  = registered channel' listener' st.
Proof.
  intro Hne. rewrite on_unfold. unfold registered. cbn [withListeners listeners].
  destruct (String.eqb_spec channel' channel) as [->|Hc].
  - rewrite mapGet_mapSet_same.
    assert (Hl : listener' <> listener) by congruence.
    rewrite setHas_setAdd_other by exact Hl.
    unfold channelSet. destruct (mapGet (listeners st) channel); reflexivity.
  - rewrite mapGet_mapSet_other by exact Hc. reflexivity.
Qed.

(** A state is its four fields. *)
Lemma withListeners_same st : withListeners st (listeners st) = st.
Proof. destruct st. reflexivity. Qed.

(** Registering a listener that is registered already changes nothing. *)
Lemma on_registered (channel : string) (listener : Listener) st :
  registered channel listener st = true -> on channel listener st = st.
Proof.
  intro Hreg. rewrite on_unfold. unfold registered, channelSet in *.
  destruct (mapGet (listeners st) channel) as [s|] eqn:Hget; [|discriminate Hreg].
  rewrite setAdd_present by exact Hreg.
  rewrite mapSet_unchanged by exact Hget.
  apply withListeners_same.
Qed.

(** A listener not yet registered goes to the end of the channel's set. *)
Lemma on_unregistered (channel : string) (listener : Listener) st :
  registered channel listener st = false ->
  channelSet channel (on channel listener st)
  = (channelSet channel st ++ [Some listener])%list.
Proof.
  intro Hreg. rewrite on_unfold, channelSet_mapSet.
  unfold registered, channelSet in *. unfold setAdd.
  destruct (mapGet (listeners st) channel) as [s|]; [rewrite Hreg|]; reflexivity.
Qed.

(** X12: [on] registers the listener on the channel, creating the
    channel's set when missing, and touches no other registration.  A
    listener already registered there is not added again: the call leaves
    the renderer exactly as it was, so the set keeps its single entry for
    it; a listener not yet registered is appended after the entries the
    set has. *)
Theorem on_registers_once (channel : string) (listener : Listener) st :
  registered channel listener (on channel listener st) = true
  /\ (registered channel listener st = true -> on channel listener st = st)
  /\ (registered channel listener st = false ->
      channelSet channel (on channel listener st)
      = (channelSet channel st ++ [Some listener])%list)
  /\ (forall channel' listener',
         (channel', listener') <> (channel, listener) ->
         registered channel' listener' (on channel listener st)
         = registered channel' listener' st)
  /\ on channel listener (on channel listener st) = on channel listener st.
Proof.
  split; [apply registered_on_same|].
  split; [apply on_registered|].
  split; [apply on_unregistered|].
  split; [intros; apply registered_on_other; assumption|].
  apply on_registered. apply registered_on_same.
Qed.

Lemma registered_removeListener_same (channel : string) (listener : Listener) st :
  registered channel listener (removeListener channel listener st) = false.
Proof.
  unfold removeListener, registered.
  destruct (mapGet (listeners st) channel) as [s|] eqn:Hget.
  - cbn [withListeners listeners]. rewrite mapGet_mapSet_same.
    apply setHas_setDelete_same.
  - rewrite Hget. reflexivity.
Qed.

Lemma registered_removeListener_other
  (channel channel' : string) (listener listener' : Listener) st :
  (channel', listener') <> (channel, listener) ->
  registered channel' listener' (removeListener channel listener st)
  = registered channel' listener' st.
Proof.
  intro Hne. unfold removeListener, registered.
  destruct (mapGet (listeners st) channel) as [s|] eqn:Hget; [|reflexivity].
  cbn [withListeners listeners].
  destruct (String.eqb_spec channel' channel) as [->|Hc].
  - rewrite mapGet_mapSet_same, Hget.
    apply setHas_setDelete_other. congruence.
  - rewrite mapGet_mapSet_other by exact Hc. reflexivity.
Qed.

Lemma removeListener_absent (channel : string) (listener : Listener) st :
  registered channel listener st = false ->
  listeners (removeListener channel listener st) = listeners st.
Proof.
  unfold registered, removeListener.
  destruct (mapGet (listeners st) channel) as [s|] eqn:Hget; [|reflexivity].
  intro Hhas. cbn [withListeners listeners].
  rewrite setDelete_absent by exact Hhas.
  apply mapSet_unchanged. exact Hget.
Qed.

(** X13: [removeListener] unregisters exactly the given listener on the
    given channel: afterwards it is not registered there, every other
    registration is as before, and for a listener that was not registered
    (also on a channel never used) the call changes nothing and does not
    fail. *)
Theorem removeListener_exact (channel : string) (listener : Listener) st :
  registered channel listener (removeListener channel listener st) = false
  /\ (forall channel' listener',
         (channel', listener') <> (channel, listener) ->
         registered channel' listener' (removeListener channel listener st)
         = registered channel' listener' st)
  /\ (registered channel listener st = false ->
      listeners (removeListener channel listener st) = listeners st).
Proof.
  split; [apply registered_removeListener_same|].
  split; [intros; apply registered_removeListener_other; assumption|].
  apply removeListener_absent.
Qed.

Lemma once_unfold (channel : string) (listener : Listener) st :
  listeners (once channel listener st)
  = mapSet (listeners st) channel
      (setAdd (channelSet channel st) (Wrapped (nextSerial st) channel listener))
  /\ nextSerial (once channel listener st) = S (nextSerial st).
Proof.
  unfold once. rewrite on_unfold. cbn [withListeners listeners nextSerial].
  split; reflexivity.
Qed.

(** X14: [once] registers a closure of its own, not the listener: the
    listener itself is registered after [once] only if it was before,
    and a [removeListener] with the listener handed to [once] leaves the
    closure registered, so that the subscription cannot be cancelled this
    way. *)
Theorem once_not_cancellable (channel : string) (listener : Listener) st :
  registered channel listener (once channel listener st)
  = registered channel listener st
  /\ registered channel (Wrapped (nextSerial st) channel listener)
       (removeListener channel listener (once channel listener st))
     = true.
Proof.
  assert (Hne : (channel, listener)
                <> (channel, Wrapped (nextSerial st) channel listener)).
  { intro Heq. injection Heq as Heq.
    pose proof (Listener_eqb_wrapped listener (nextSerial st) channel) as Hw.
    destruct (Listener_eqb_spec listener (Wrapped (nextSerial st) channel listener));
      [discriminate Hw | contradiction]. }
  split.
  - unfold once. rewrite registered_on_other by exact Hne. reflexivity.
  - rewrite registered_removeListener_other by (intro Heq; apply Hne; congruence).
    unfold once. apply registered_on_same.
Qed.

End Registration.

Section Emission.

Import TauriBridge.

Context {World Thrown Args : Type}.

Variable body : nat -> Args -> State World Thrown -> Outcome World Thrown.

Implicit Types st : State World Thrown.

Lemma setHas_setValues (s : SetData) (l : Listener) :
  setHas s l = true <-> In l (setValues s).
Proof.
  unfold setHas, setValues. induction s as [|slot s IH]; cbn.
  - split; [discriminate | contradiction].
  - rewrite orb_true_iff, in_app_iff, IH.
    destruct slot as [k|]; cbn.
    + destruct (Listener_eqb_spec l k) as [->|Hne]; split; intros [Hk|Hs];
        auto; try discriminate; try (destruct Hk as [Hk|[]]; congruence).
    + split; intros [Hk|Hs]; auto; try discriminate; try contradiction.
Qed.

Lemma skipn_head {A : Type} (i : nat) (l : list A) (x : A) (rest : list A) :
  skipn i l = x :: rest -> nth_error l i = Some x /\ skipn (S i) l = rest.
Proof.
  revert l. induction i as [|i IH]; intros [|y l]; cbn; try discriminate.
  - intro Heq. injection Heq as -> ->. split; reflexivity.
  - intro Heq. apply IH in Heq. exact Heq.
Qed.

Lemma skipn_nil_nth_error {A : Type} (i : nat) (l : list A) :
  skipn i l = [] -> nth_error l i = None.
Proof.
  revert l. induction i as [|i IH]; intros [|y l]; cbn; try discriminate;
    try reflexivity.
  apply IH.
Qed.

(** What a caught call of a listener the callers registered does to the
    set of a channel, when their functions leave the renderer alone: it
    stays, or the listener called is deleted from it. *)
Lemma callCaught_channel (listener : Listener) (args : Args) (channel : string)
  (entries : SetData) st :
  (forall id a s, keepsRenderer s (body id a s)) ->
  callerRegistered listener ->
  mapGet (listeners st) channel = Some entries ->
  mapGet (listeners (callCaught body listener args st)) channel = Some entries
  \/ mapGet (listeners (callCaught body listener args st)) channel
     = Some (setDelete entries listener).
Proof.
  intros Hframe Hsimple Hget. unfold callCaught.
  destruct listener as [id | serial c [id | ? ? ?]]; [| |contradiction]; cbn [call];
    pose proof (Hframe id args st) as Hkeep;
    destruct (body id args st) as [st'|e st']; cbn [keepsRenderer] in Hkeep;
    destruct Hkeep as [Hl _]; cbn [listeners];
    try (left; rewrite Hl; exact Hget).
  unfold removeListener. rewrite Hl.
  destruct (mapGet (listeners st) c) as [s|] eqn:Hc;
    [|left; rewrite Hl; exact Hget].
  cbn [withListeners listeners].
  destruct (String.eqb_spec channel c) as [->|Hne].
  - right. rewrite mapGet_mapSet_same. congruence.
  - left. rewrite mapGet_mapSet_other by exact Hne. exact Hget.
Qed.

(** The loop of [emit]: from slot [index] on it calls what the slots
    hold, in order; the deletions the calls make do not reach the slots
    still to come. *)
Lemma forEachFrom_visits (channel : string) (args : Args) (rest : SetData) :
  (forall id a s, keepsRenderer s (body id a s)) ->
  forall (index fuel : nat) (entries : SetData) st,
    mapGet (listeners st) channel = Some entries ->
    skipn index entries = rest ->
    NoDup (setValues rest) ->
    Forall callerRegistered (setValues rest) ->
    (List.length rest < fuel)%nat ->
    forEachFrom body fuel channel args index st
    = Some (fold_left (fun s l => callCaught body l args s) (setValues rest) st).
Proof.
  intro Hframe.
  induction rest as [|slot rest IH]; intros index fuel entries st Hget Hskip Hnd Hall Hfuel.
  - destruct fuel as [|fuel]; [cbn in Hfuel; lia|]. cbn [forEachFrom].
    rewrite Hget, (skipn_nil_nth_error _ _ Hskip). reflexivity.
  - destruct fuel as [|fuel]; [cbn in Hfuel; lia|]. cbn [forEachFrom].
    destruct (skipn_head _ _ _ _ Hskip) as [Hnth Hnext].
    rewrite Hget, Hnth.
    destruct slot as [l|].
    + change (setValues (Some l :: rest)) with (l :: setValues rest) in Hnd, Hall |- *.
      cbn [fold_left].
      apply NoDup_cons_iff in Hnd. destruct Hnd as [Hnotin Hnd'].
      apply Forall_cons_iff in Hall. destruct Hall as [Hsimple Hall'].
      assert (Habsent : setHas rest l = false).
      { destruct (setHas rest l) eqn:Hhas; [|reflexivity].
        apply setHas_setValues in Hhas. contradiction. }
      destruct (callCaught_channel l args channel entries st Hframe Hsimple Hget)
        as [Hsame|Hdel].
      * apply (IH (S index) fuel entries); try assumption. cbn in Hfuel. lia.
      * apply (IH (S index) fuel (setDelete entries l)); try assumption.
        -- unfold setDelete. rewrite skipn_map.
           change (map _ (skipn (S index) entries))
             with (setDelete (skipn (S index) entries) l).
           rewrite Hnext. apply setDelete_absent. exact Habsent.
        -- cbn in Hfuel. lia.
    + change (setValues (None :: rest)) with (setValues rest) in Hnd, Hall |- *.
      apply (IH (S index) fuel entries); try assumption. cbn in Hfuel. lia.
Qed.

(** X15: when the callers' functions do not themselves register or
    remove listeners, [emit] calls the listeners registered on the channel
    at that moment, each once and in the order of registration; a listener
    that throws is reported and the following ones are still called, and a
    [once] closure removing itself on the way does not make the loop skip
    or repeat a listener.  One slot of fuel per entry of the set, and one
    more, is enough for the loop to end. *)
Theorem emit_calls_registered_in_order (channel : string) (args : Args)
  (entries : SetData) st :
  (forall id a s, keepsRenderer s (body id a s)) ->
  mapGet (listeners st) channel = Some entries ->
  NoDup (setValues entries) ->
  Forall callerRegistered (setValues entries) ->
  emit body (S (List.length entries)) channel args st
  = Some (fold_left (fun s l => callCaught body l args s) (setValues entries) st).
Proof.
  intros Hframe Hget Hnd Hall. unfold emit. rewrite Hget.
  apply (forEachFrom_visits channel args entries Hframe 0 _ entries);
    try assumption; [reflexivity | lia].
Qed.

End Emission.

Section ShrinkingSets.

Import TauriBridge.

Lemma shrunk_refl (s : SetData) : shrunk s s.
Proof. induction s; constructor; auto. Qed.

Lemma shrunk_trans (s t u : SetData) : shrunk s t -> shrunk t u -> shrunk s u.
Proof.
  intro Hst. revert u. induction Hst as [|a b s t Hab Hst IH]; intros u Htu.
  - inversion Htu. constructor.
  - inversion Htu as [|b' c t' u' Hbc Htu']; subst. constructor.
    + destruct Hbc as [->| ->]; [exact Hab | right; reflexivity].
    + apply IH. exact Htu'.
Qed.

Lemma shrunk_setDelete (s : SetData) (l : Listener) : shrunk s (setDelete s l).
Proof.
  induction s as [|slot s IH]; cbn; constructor; [|exact IH].
  destruct (slotHolds l slot); auto.
Qed.

Lemma shrunk_In (s t : SetData) (l : Listener) :
  shrunk s t -> In l (setValues t) -> In l (setValues s).
Proof.
  intro Hst. induction Hst as [|a b s t Hab Hst IH]; [auto|].
  change (setValues (b :: t))
    with ((match b with Some k => [k] | None => [] end) ++ setValues t)%list.
  change (setValues (a :: s))
    with ((match a with Some k => [k] | None => [] end) ++ setValues s)%list.
  rewrite !in_app_iff. intros [Hb|Ht]; [|right; exact (IH Ht)].
  destruct Hab as [->| ->]; [left; exact Hb | contradiction].
Qed.

Lemma shrunk_NoDup (s t : SetData) :
  shrunk s t -> NoDup (setValues s) -> NoDup (setValues t).
Proof.
  intro Hst. induction Hst as [|a b s t Hab Hst IH]; [auto|].
  destruct Hab as [->| ->].
  - destruct a as [k|]; [|exact IH].
    change (setValues (Some k :: s)) with (k :: setValues s).
    change (setValues (Some k :: t)) with (k :: setValues t).
    rewrite !NoDup_cons_iff. intros [Hk Hs]. split; [|exact (IH Hs)].
    intro Hin. apply Hk. exact (shrunk_In s t k Hst Hin).
  - change (setValues (None :: t)) with (setValues t).
    destruct a as [k|].
    + change (setValues (Some k :: s)) with (k :: setValues s).
      rewrite NoDup_cons_iff. intros [_ Hs]. exact (IH Hs).
    + exact IH.
Qed.

Lemma shrunk_Forall (P : Listener -> Prop) (s t : SetData) :
  shrunk s t -> Forall P (setValues s) -> Forall P (setValues t).
Proof.
  intros Hst Hall. rewrite Forall_forall in *.
  intros l Hin. apply Hall. exact (shrunk_In s t l Hst Hin).
Qed.

Lemma setValues_app (s t : SetData) :
  setValues (s ++ t)%list = (setValues s ++ setValues t)%list.
Proof. unfold setValues. apply flat_map_app. Qed.

End ShrinkingSets.

Section OnceListeners.

Import TauriBridge.

Context {World Thrown Args : Type}.

Variable body : nat -> Args -> State World Thrown -> Outcome World Thrown.

Implicit Types st : State World Thrown.

Hypothesis body_keepsRenderer : forall i a s, keepsRenderer s (body i a s).

(** [emit] with any fuel beyond the number of slots. *)
Lemma emit_visits (channel : string) (args : Args) (entries : SetData)
  (fuel : nat) st :
  mapGet (listeners st) channel = Some entries ->
  NoDup (setValues entries) ->
  Forall callerRegistered (setValues entries) ->
  (List.length entries < fuel)%nat ->
  emit body fuel channel args st
  = Some (fold_left (fun s l => callCaught body l args s) (setValues entries) st).
Proof.
  intros Hget Hnd Hall Hfuel. unfold emit. rewrite Hget.
  apply (forEachFrom_visits body channel args entries body_keepsRenderer 0 _ entries);
    try assumption. reflexivity.
Qed.

(** The set of a channel after [once]. *)
Lemma once_channelSet (channel : string) (listener : Listener) st :
  mapGet (listeners (once channel listener st)) channel
  = Some (setAdd (channelSet channel st) (Wrapped (nextSerial st) channel listener)).
Proof.
  rewrite (proj1 (once_unfold channel listener st)).
  apply mapGet_mapSet_same.
Qed.

Lemma setAdd_In (s : SetData) (l : Listener) : In l (setValues (setAdd s l)).
Proof. apply setHas_setValues. apply setHas_setAdd_same. Qed.

Lemma setAdd_NoDup (s : SetData) (l : Listener) :
  NoDup (setValues s) -> NoDup (setValues (setAdd s l)).
Proof.
  intro Hnd. unfold setAdd. destruct (setHas s l) eqn:Hhas; [exact Hnd|].
  rewrite setValues_app. cbn. apply NoDup_app.
  - exact Hnd.
  - repeat constructor. intros [].
  - intros k Hk [<-|[]]. apply setHas_setValues in Hk. congruence.
Qed.

Lemma setAdd_Forall (P : Listener -> Prop) (s : SetData) (l : Listener) :
  P l -> Forall P (setValues s) -> Forall P (setValues (setAdd s l)).
Proof.
  intros Hl Hall. unfold setAdd. destruct (setHas s l); [exact Hall|].
  rewrite setValues_app. apply Forall_app. split; [exact Hall|].
  cbn. repeat constructor. exact Hl.
Qed.

(** Whatever is called, the set of a channel can only lose entries. *)
Lemma callCaught_shrinks (listener : Listener) (args : Args) (channel : string)
  (entries : SetData) st :
  callerRegistered listener ->
  mapGet (listeners st) channel = Some entries ->
  exists entries',
    mapGet (listeners (callCaught body listener args st)) channel = Some entries'
    /\ shrunk entries entries'
    /\ (entries' = entries \/ entries' = setDelete entries listener).
Proof.
  intros Hsimple Hget.
  destruct (callCaught_channel body listener args channel entries st
              body_keepsRenderer Hsimple Hget) as [Hsame|Hdel].
  - exists entries. split; [exact Hsame|]. split; [apply shrunk_refl | left; reflexivity].
  - exists (setDelete entries listener). split; [exact Hdel|].
    split; [apply shrunk_setDelete | right; reflexivity].
Qed.

(** The closure of [once] after a call of its function that returns: it
    has removed itself from its channel. *)
Lemma callCaught_returning (serial : nat) (channel : string) (id : nat)
  (args : Args) (entries : SetData) st st' :
  body id args st = Returns st' ->
  mapGet (listeners st) channel = Some entries ->
  mapGet (listeners (callCaught body (Wrapped serial channel (Fn id)) args st)) channel
  = Some (setDelete entries (Wrapped serial channel (Fn id))).
Proof.
  intros Hbody Hget. pose proof (body_keepsRenderer id args st) as Hkeep.
  unfold callCaught. cbn [call]. rewrite Hbody in Hkeep |- *.
  destruct Hkeep as [Hl _].
  unfold removeListener. rewrite Hl, Hget. cbn [withListeners listeners].
  apply mapGet_mapSet_same.
Qed.

(** The same closure after a call that throws: the renderer is as
    before, and the console has the error at its end. *)
Lemma callCaught_throwing (serial : nat) (channel : string) (id : nat)
  (args : Args) (error : Thrown) st st' :
  body id args st = Throws error st' ->
  listeners (callCaught body (Wrapped serial channel (Fn id)) args st) = listeners st
  /\ world (callCaught body (Wrapped serial channel (Fn id)) args st) = world st'
  /\ console (callCaught body (Wrapped serial channel (Fn id)) args st)
     = (console st' ++ [error])%list.
Proof.
  intro Hbody. pose proof (body_keepsRenderer id args st) as Hkeep.
  unfold callCaught. cbn [call]. rewrite Hbody in Hkeep |- *.
  destruct Hkeep as [Hl _]. cbn [listeners world console].
  split; [exact Hl|]. split; reflexivity.
Qed.

Section OneClosure.

Variables (serial : nat) (channel : string) (id : nat) (args : Args).

(** When the function returns: once the loop has called the closure, or
    if the closure was not in the set to begin with, it is not in the set
    at the end. *)
Lemma fold_removes_returning (ls : list Listener) :
  (forall s, exists s', body id args s = Returns s') ->
  Forall callerRegistered ls ->
  forall (entries : SetData) st,
    mapGet (listeners st) channel = Some entries ->
    In (Wrapped serial channel (Fn id)) ls \/ setHas entries (Wrapped serial channel (Fn id)) = false ->
    exists entries',
      mapGet (listeners (fold_left (fun s l => callCaught body l args s) ls st))
        channel = Some entries'
      /\ shrunk entries entries'
      /\ setHas entries' (Wrapped serial channel (Fn id)) = false.
Proof.
  intros Hret Hall. induction Hall as [|l ls Hl Hall IH]; intros entries st Hget Hcase.
  - destruct Hcase as [[]|Habsent]. exists entries. cbn.
    split; [exact Hget|]. split; [apply shrunk_refl | exact Habsent].
  - cbn [fold_left].
    destruct (Listener_eqb_spec l (Wrapped serial channel (Fn id))) as [->|Hne].
    + destruct (Hret st) as (st' & Hbody).
      pose proof (callCaught_returning serial channel id args entries st st' Hbody Hget)
        as Hdel.
      destruct (IH _ _ Hdel) as (entries' & Hget' & Hshr & Habsent).
      { right. apply setHas_setDelete_same. }
      exists entries'. split; [exact Hget'|]. split; [|exact Habsent].
      exact (shrunk_trans _ _ _ (shrunk_setDelete entries _) Hshr).
    + destruct (callCaught_shrinks l args channel entries st Hl Hget)
        as (entries1 & Hget1 & Hshr1 & Hform).
      destruct (IH _ _ Hget1) as (entries' & Hget' & Hshr & Habsent).
      { destruct Hcase as [[Heq|Hin]|Habsent]; [congruence | left; exact Hin |].
        right. destruct Hform as [->| ->]; [exact Habsent|].
        rewrite setHas_setDelete_other by congruence. exact Habsent. }
      exists entries'. split; [exact Hget'|]. split; [|exact Habsent].
      exact (shrunk_trans _ _ _ Hshr1 Hshr).
Qed.

(** When the function throws: the closure is in the set at the end if it
    was at the start. *)
Lemma fold_keeps_throwing (ls : list Listener) :
  (forall s, exists error s', body id args s = Throws error s') ->
  Forall callerRegistered ls ->
  forall (entries : SetData) st,
    mapGet (listeners st) channel = Some entries ->
    setHas entries (Wrapped serial channel (Fn id)) = true ->
    exists entries',
      mapGet (listeners (fold_left (fun s l => callCaught body l args s) ls st))
        channel = Some entries'
      /\ shrunk entries entries'
      /\ setHas entries' (Wrapped serial channel (Fn id)) = true.
Proof.
  intros Hthrows Hall. induction Hall as [|l ls Hl Hall IH]; intros entries st Hget Hhas.
  - exists entries. cbn. split; [exact Hget|]. split; [apply shrunk_refl | exact Hhas].
  - cbn [fold_left].
    destruct (Listener_eqb_spec l (Wrapped serial channel (Fn id))) as [->|Hne].
    + destruct (Hthrows st) as (error & st' & Hbody).
      destruct (callCaught_throwing serial channel id args error st st' Hbody)
        as (Hsame & _).
      apply (IH entries); [rewrite Hsame; exact Hget | exact Hhas].
    + destruct (callCaught_shrinks l args channel entries st Hl Hget)
        as (entries1 & Hget1 & Hshr1 & Hform).
      destruct (IH _ _ Hget1) as (entries' & Hget' & Hshr & Hhas').
      { destruct Hform as [->| ->]; [exact Hhas|].
        rewrite setHas_setDelete_other by congruence. exact Hhas. }
      exists entries'. split; [exact Hget'|]. split; [|exact Hhas'].
      exact (shrunk_trans _ _ _ Hshr1 Hshr).
Qed.

End OneClosure.

(** X16: let the callers' functions leave the renderer alone, and let a
    function that returns be registered with [once] on a channel, beside
    whatever listeners the channel has.  The next [emit] on the channel
    calls the listeners of the channel in order, the closure of [once]
    among them, and afterwards the closure is not registered; a further
    [emit] calls the listeners left and not the closure. *)
Theorem once_fires_once (channel : string) (id : nat) (args : Args) st :
  (forall s, exists s', body id args s = Returns s') ->
  NoDup (setValues (channelSet channel st)) ->
  Forall callerRegistered (setValues (channelSet channel st)) ->
  exists st2 entries2,
    In (Wrapped (nextSerial st) channel (Fn id))
       (setValues (channelSet channel (once channel (Fn id) st)))
    /\ emit body (S (List.length (channelSet channel (once channel (Fn id) st))))
         channel args (once channel (Fn id) st)
       = Some st2
    /\ st2 = fold_left (fun s l => callCaught body l args s)
               (setValues (channelSet channel (once channel (Fn id) st)))
               (once channel (Fn id) st)
    /\ registered channel (Wrapped (nextSerial st) channel (Fn id)) st2 = false
    /\ mapGet (listeners st2) channel = Some entries2
    /\ ~ In (Wrapped (nextSerial st) channel (Fn id)) (setValues entries2)
    /\ forall args',
        emit body (S (List.length entries2)) channel args' st2
        = Some (fold_left (fun s l => callCaught body l args' s)
                  (setValues entries2) st2).
Proof.
  intros Hret Hnd Hall.
  pose proof (once_channelSet channel (Fn id) st) as Hget.
  set (wrapped := Wrapped (nextSerial st) channel (Fn id)) in *.
  set (st1 := once channel (Fn id) st) in *.
  set (entries1 := setAdd (channelSet channel st) wrapped) in *.
  assert (Hset : channelSet channel st1 = entries1)
    by (unfold channelSet; rewrite Hget; reflexivity).
  assert (Hnd1 : NoDup (setValues entries1)) by (apply setAdd_NoDup; exact Hnd).
  assert (Hall1 : Forall callerRegistered (setValues entries1))
    by (apply setAdd_Forall; [exact I | exact Hall]).
  assert (Hin : In wrapped (setValues entries1)) by apply setAdd_In.
  destruct (fold_removes_returning (nextSerial st) channel id args
              (setValues entries1) Hret Hall1 entries1 st1 Hget (or_introl Hin))
    as (entries2 & Hget2 & Hshr & Habsent).
  fold wrapped in Habsent.
  exists (fold_left (fun s l => callCaught body l args s) (setValues entries1) st1),
    entries2.
  rewrite Hset.
  split; [exact Hin|].
  split; [apply emit_visits; try assumption; lia|].
  split; [reflexivity|].
  split; [unfold registered; rewrite Hget2; exact Habsent|].
  split; [exact Hget2|].
  split.
  - intro Hin2. apply setHas_setValues in Hin2. congruence.
  - intro args'. apply emit_visits; try assumption; try lia.
    + exact (shrunk_NoDup _ _ Hshr Hnd1).
    + exact (shrunk_Forall _ _ _ Hshr Hall1).
Qed.

(** X17: in the same situation, when the function registered with
    [once] throws, the closure does not get to remove itself.  Each call
    of the closure ends with the renderer as it was and the error at the
    end of the console; the [emit] that calls it leaves it registered, and
    the next [emit] on the channel calls the listeners left, the closure
    among them again. *)
Theorem once_throwing_stays (channel : string) (id : nat) (args : Args) st :
  (forall s, exists error s', body id args s = Throws error s') ->
  NoDup (setValues (channelSet channel st)) ->
  Forall callerRegistered (setValues (channelSet channel st)) ->
  (forall serial error s s',
      body id args s = Throws error s' ->
      listeners (callCaught body (Wrapped serial channel (Fn id)) args s) = listeners s
      /\ console (callCaught body (Wrapped serial channel (Fn id)) args s)
         = (console s' ++ [error])%list)
  /\ exists st2 entries2,
      In (Wrapped (nextSerial st) channel (Fn id))
         (setValues (channelSet channel (once channel (Fn id) st)))
      /\ emit body (S (List.length (channelSet channel (once channel (Fn id) st))))
           channel args (once channel (Fn id) st)
         = Some st2
      /\ st2 = fold_left (fun s l => callCaught body l args s)
                 (setValues (channelSet channel (once channel (Fn id) st)))
                 (once channel (Fn id) st)
      /\ registered channel (Wrapped (nextSerial st) channel (Fn id)) st2 = true
      /\ mapGet (listeners st2) channel = Some entries2
      /\ In (Wrapped (nextSerial st) channel (Fn id)) (setValues entries2)
      /\ forall args',
          emit body (S (List.length entries2)) channel args' st2
          = Some (fold_left (fun s l => callCaught body l args' s)
                    (setValues entries2) st2).
Proof.
  intros Hthrows Hnd Hall. split.
  - intros serial error s s' Hbody.
    destruct (callCaught_throwing serial channel id args error s s' Hbody)
      as (Hl & _ & Hc). split; assumption.
  - pose proof (once_channelSet channel (Fn id) st) as Hget.
    set (wrapped := Wrapped (nextSerial st) channel (Fn id)) in *.
    set (st1 := once channel (Fn id) st) in *.
    set (entries1 := setAdd (channelSet channel st) wrapped) in *.
    assert (Hset : channelSet channel st1 = entries1)
      by (unfold channelSet; rewrite Hget; reflexivity).
    assert (Hnd1 : NoDup (setValues entries1)) by (apply setAdd_NoDup; exact Hnd).
    assert (Hall1 : Forall callerRegistered (setValues entries1))
      by (apply setAdd_Forall; [exact I | exact Hall]).
    assert (Hin : In wrapped (setValues entries1)) by apply setAdd_In.
    destruct (fold_keeps_throwing (nextSerial st) channel id args
                (setValues entries1) Hthrows Hall1 entries1 st1 Hget
                (setHas_setAdd_same _ _))
      as (entries2 & Hget2 & Hshr & Hhas).
    fold wrapped in Hhas.
    exists (fold_left (fun s l => callCaught body l args s) (setValues entries1) st1),
      entries2.
    rewrite Hset.
    split; [exact Hin|].
    split; [apply emit_visits; try assumption; lia|].
    split; [reflexivity|].
    split; [unfold registered; rewrite Hget2; exact Hhas|].
    split; [exact Hget2|].
    split; [apply setHas_setValues; exact Hhas|].
    intro args'. apply emit_visits; try assumption; try lia.
    + exact (shrunk_NoDup _ _ Hshr Hnd1).
    + exact (shrunk_Forall _ _ _ Hshr Hall1).
Qed.

End OnceListeners.

Section BridgeExamples.

Import TauriBridge.

Lemma on_registers_once_witness :
  on "exec" (Fn 1) (on "exec" (Fn 2) (on "exec" (Fn 1) (newRenderer [])))
  = on (Thrown := string) "exec" (Fn 2)
      (on "exec" (Fn 1) (newRenderer (@nil (nat * string)))).
Proof.
  apply (proj1 (proj2 (on_registers_once "exec" (Fn 1)
                         (on "exec" (Fn 2) (on "exec" (Fn 1) (newRenderer [])))))).
  reflexivity.
Defined.

Lemma removeListener_exact_witness :
  listeners
    (removeListener "exec" (Fn 1) (newRenderer (Thrown := string) (@nil (nat * string))))
  = listeners (newRenderer (Thrown := string) (@nil (nat * string))).
Proof.
  apply (removeListener_exact "exec" (Fn 1)
           (newRenderer (Thrown := string) (@nil (nat * string)))).
  reflexivity.
Defined.

Lemma recordingBody_keepsRenderer (id : nat) (arg : string)
  (s : State (list (nat * string)) string) :
  keepsRenderer s (recordingBody id arg s).
Proof.
  unfold recordingBody. destruct (id =? 13)%nat; cbn; split; reflexivity.
Defined.

(** A renderer with three listeners on one channel: a function, a [once]
    closure around the throwing function, and another function. *)
Lemma emit_calls_registered_in_order_witness :
  emit recordingBody 4 "exec" "ls"
    (on "exec" (Fn 2) (once "exec" (Fn 13) (on "exec" (Fn 1) (newRenderer []))))
  = Some
      {| listeners := [("exec", [Some (Fn 1); Some (Wrapped 0 "exec" (Fn 13));
                                 Some (Fn 2)])];
         nextSerial := 1;
         world := [(1, "ls"); (13, "ls"); (2, "ls")]%nat;
         console := ["ls"] |}.
Proof.
  apply (emit_calls_registered_in_order recordingBody "exec" "ls"
           [Some (Fn 1); Some (Wrapped 0 "exec" (Fn 13)); Some (Fn 2)]).
  - exact recordingBody_keepsRenderer.
  - reflexivity.
  - cbn. repeat constructor; cbn; intuition discriminate.
  - cbn. repeat constructor.
Defined.

Lemma usedRenderer_NoDup : NoDup (setValues (channelSet "exec" usedRenderer)).
Proof. cbn. repeat constructor. intros []. Defined.

Lemma usedRenderer_callerRegistered :
  Forall callerRegistered (setValues (channelSet "exec" usedRenderer)).
Proof. cbn. repeat constructor. Defined.

Lemma once_fires_once_witness :
  exists st2 entries2,
    In (Wrapped 0 "exec" (Fn 1))
       (setValues (channelSet "exec" (once "exec" (Fn 1) usedRenderer)))
    /\ emit recordingBody 4 "exec" "ls" (once "exec" (Fn 1) usedRenderer) = Some st2
    /\ st2 = fold_left (fun s l => callCaught recordingBody l "ls" s)
               (setValues (channelSet "exec" (once "exec" (Fn 1) usedRenderer)))
               (once "exec" (Fn 1) usedRenderer)
    /\ registered "exec" (Wrapped 0 "exec" (Fn 1)) st2 = false
    /\ mapGet (listeners st2) "exec" = Some entries2
    /\ ~ In (Wrapped 0 "exec" (Fn 1)) (setValues entries2)
    /\ forall args',
        emit recordingBody (S (List.length entries2)) "exec" args' st2
        = Some (fold_left (fun s l => callCaught recordingBody l args' s)
                  (setValues entries2) st2).
Proof.
  apply (once_fires_once recordingBody recordingBody_keepsRenderer
           "exec" 1 "ls" usedRenderer).
  - intro s. eexists. reflexivity.
  - exact usedRenderer_NoDup.
  - exact usedRenderer_callerRegistered.
Defined.

Lemma once_throwing_stays_witness :
  exists st2 entries2,
    In (Wrapped 0 "exec" (Fn 13))
       (setValues (channelSet "exec" (once "exec" (Fn 13) usedRenderer)))
    /\ emit recordingBody 4 "exec" "ls" (once "exec" (Fn 13) usedRenderer) = Some st2
    /\ st2 = fold_left (fun s l => callCaught recordingBody l "ls" s)
               (setValues (channelSet "exec" (once "exec" (Fn 13) usedRenderer)))
               (once "exec" (Fn 13) usedRenderer)
    /\ registered "exec" (Wrapped 0 "exec" (Fn 13)) st2 = true
    /\ mapGet (listeners st2) "exec" = Some entries2
    /\ In (Wrapped 0 "exec" (Fn 13)) (setValues entries2)
    /\ forall args',
        emit recordingBody (S (List.length entries2)) "exec" args' st2
        = Some (fold_left (fun s l => callCaught recordingBody l args' s)
                  (setValues entries2) st2).
Proof.
  apply (once_throwing_stays recordingBody recordingBody_keepsRenderer
           "exec" 13 "ls" usedRenderer).
  - intro s. eexists _, _. reflexivity.
  - exact usedRenderer_NoDup.
  - exact usedRenderer_callerRegistered.
Defined.

End BridgeExamples.
